(** * Market-making core: spread model, inventory ledger, liquidity pool

    A shallow embedding of the TypeScript sources [liquidityPool.ts],
    [inventory.ts], [spread.ts], [marketMaker.ts] and [types.ts].

    Numbers.  A TypeScript [number] is modelled as a real number: the
    properties below are the ones of exact arithmetic.  [Math.max],
    [Math.min], [Math.abs] and [Math.sqrt] are [Rmax], [Rmin], [Rabs] and
    [sqrt].  A quotient [a / b] is [Rdiv]; it agrees with the source for
    every non-zero divisor, and the statements whose truth depends on the
    value of a quotient carry the hypotheses that keep its divisor away
    from zero.  Infinities and NaN have no counterpart here.

    Effects.  Each class becomes a record of its private fields, each
    method a state transformer.  A [throw] is an outcome of its own and
    returns the state as it was when the exception left the method, so
    that "no partial mutation" is a statement about the code and not about
    the encoding.  [Date.now()] and the random identifiers are arguments. *)

From Stdlib Require Import Reals Lra Lia Psatz.
From stdpp Require Import gmap strings list.

Local Open Scope R_scope.

(** The comparisons of the source are decided on the reals. *)
#[global] Instance R_eq_dec : EqDecision R := Req_dec_T.
#[global] Instance Rlt_decision (x y : R) : Decision (x < y) := Rlt_dec x y.
#[global] Instance Rle_decision (x y : R) : Decision (x <= y) := Rle_dec x y.
#[global] Instance Rgt_decision (x y : R) : Decision (x > y) := Rgt_dec x y.
#[global] Instance Rge_decision (x y : R) : Decision (x >= y) := Rge_dec x y.

(** ** Data model ([types.ts]) *)

Inductive Token := A | B.
Inductive Side := buy | sell.
Inductive OrderStatus := pending | filled | partial | cancelled | rejected.

#[global] Instance Token_eq_dec : EqDecision Token.
Proof. solve_decision. Defined.
#[global] Instance Side_eq_dec : EqDecision Side.
Proof. solve_decision. Defined.
#[global] Instance OrderStatus_eq_dec : EqDecision OrderStatus.
Proof. solve_decision. Defined.

Module InventoryState.
Record t := mk
  { currentInventory : R; targetInventory : R; inventoryRatio : R;
    skewFactor : R; maxInventory : R; minInventory : R }.
End InventoryState.

Module SpreadConfig.
Record t := mk
  { baseSpread : R; minSpread : R; maxSpread : R;
    volatilityMultiplier : R; inventorySkewMultiplier : R }.
End SpreadConfig.

Module InventoryConfig.
Record t := mk
  { targetInventory : R; maxInventory : R; minInventory : R;
    rebalanceThreshold : R; skewSensitivity : R }.
End InventoryConfig.

Module Trade.
Record t := mk
  { id : string; side : Side; price : R; size : R; timestamp : R; fee : R }.
End Trade.

Module MarketData.
Record t := mk
  { symbol : string; lastPrice : R; bidPrice : R; askPrice : R;
    volume24h : R; high24h : R; low24h : R; volatility : R }.
End MarketData.

Module Position.
Record t := mk
  { baseBalance : R; quoteBalance : R; netExposure : R; unrealizedPnL : R }.
End Position.

Module SwapResult.
Record t := mk
  { amountIn : R; amountOut : R; priceImpact : R; fee : R; newPrice : R }.
End SwapResult.

Module AddLiquidityResult.
Record t := mk
  { lpTokensReceived : R; tokenADeposited : R; tokenBDeposited : R;
    shareOfPool : R }.
End AddLiquidityResult.

Module RemoveLiquidityResult.
Record t := mk
  { lpTokensBurned : R; tokenAReceived : R; tokenBReceived : R; fee : R }.
End RemoveLiquidityResult.

Module Order.
Record t := mk
  { id : string; side : Side; price : R; size : R; filledSize : R;
    status : OrderStatus; createdAt : R; updatedAt : R }.

Definition set_filledSize (v : R) (o : t) : t :=
  mk (id o) (side o) (price o) (size o) v (status o) (createdAt o)
     (updatedAt o).
Definition set_status (v : OrderStatus) (o : t) : t :=
  mk (id o) (side o) (price o) (size o) (filledSize o) v (createdAt o)
     (updatedAt o).
Definition set_updatedAt (v : R) (o : t) : t :=
  mk (id o) (side o) (price o) (size o) (filledSize o) (status o)
     (createdAt o) v.
End Order.

Module MarketMakerConfig.
Record t := mk
  { spread : SpreadConfig.t; inventory : InventoryConfig.t;
    orderSize : R; maxOrderSize : R; minOrderSize : R;
    priceTickSize : R; sizeTickSize : R; updateIntervalMs : R }.
End MarketMakerConfig.

Module Quote.
Record t := mk
  { bidPrice : R; bidSize : R; askPrice : R; askSize : R;
    spread : R; midPrice : R }.
End Quote.

Module PoolState.
Record t := mk
  { tokenAReserve : R; tokenBReserve : R; totalLiquidity : R;
    lpTokenSupply : R; fee : R; lastUpdate : R }.
End PoolState.

Module LiquidityPosition.
Record t := mk
  { lpTokens : R; shareOfPool : R; tokenAAmount : R; tokenBAmount : R;
    entryPrice : R; currentValue : R; impermanentLoss : R }.
End LiquidityPosition.

(** ** Methods that may throw: a state monad with exceptions *)

Inductive outcome (E T : Type) : Type :=
| Returned (v : T)
| Thrown (e : E).
Arguments Returned {E T} v.
Arguments Thrown {E T} e.

Section Method.
Context {S E : Type}.

Definition method (T : Type) : Type := S -> outcome E T * S.

Definition ret {T} (v : T) : method T := fun s => (Returned v, s).
Definition throw {T} (e : E) : method T := fun s => (Thrown e, s).
Definition this : method S := fun s => (Returned s, s).
Definition assign (f : S -> S) : method unit := fun s => (Returned tt, f s).
Definition bind {T U} (m : method T) (k : T -> method U) : method U :=
  fun s => match m s with
           | (Returned v, s') => k v s'
           | (Thrown e, s') => (Thrown e, s')
           end.
End Method.

Declare Scope method_scope.
Delimit Scope method_scope with method.
Notation "x <- m ;; k" := (bind m (fun x => k))
  (at level 100, m at next level, right associativity) : method_scope.
Notation "m ;;; k" := (bind m (fun _ => k))
  (at level 100, right associativity) : method_scope.

(** ** [liquidityPool.ts] *)

Module LiquidityPool.

Definition DEFAULT_POOL_FEE : R := 0.003.
Definition MINIMUM_LIQUIDITY : R := 1000.

(** The messages of the [Error]s the class throws. *)
Inductive Error :=
| AlreadyInitialized          (* 'Pool already initialized' *)
| InvalidAmount               (* 'Invalid initial liquidity amounts' *)
| InitialLiquidityTooLow      (* 'Initial liquidity too low' *)
| InvalidSwapAmount           (* 'Invalid swap amount' *)
| SlippageExceeded (expected got : R)
                              (* `Slippage exceeded: expected .., got ..` *)
| InvalidLpAmount             (* 'Invalid LP token amount' *)
| InsufficientLiquidity       (* 'Insufficient liquidity' *)
| InvalidFee.                 (* 'Fee must be between 0 and 1' *)

(** The private fields of the class. *)
Record t := mk
  { tokenAReserve : R; tokenBReserve : R; lpTokenSupply : R;
    fee : R; lastUpdate : R }.

Definition set_tokenAReserve (v : R) (p : t) : t :=
  mk v (tokenBReserve p) (lpTokenSupply p) (fee p) (lastUpdate p).
Definition set_tokenBReserve (v : R) (p : t) : t :=
  mk (tokenAReserve p) v (lpTokenSupply p) (fee p) (lastUpdate p).
Definition set_lpTokenSupply (v : R) (p : t) : t :=
  mk (tokenAReserve p) (tokenBReserve p) v (fee p) (lastUpdate p).
Definition set_fee (v : R) (p : t) : t :=
  mk (tokenAReserve p) (tokenBReserve p) (lpTokenSupply p) v (lastUpdate p).
Definition set_lastUpdate (v : R) (p : t) : t :=
  mk (tokenAReserve p) (tokenBReserve p) (lpTokenSupply p) (fee p) v.

Definition M := @method t Error.

Local Open Scope method_scope.

(** [constructor(fee = DEFAULT_POOL_FEE)]; [now] is the [Date.now()] of the
    field initialiser. *)
Definition constructor (fee : R) (now : R) : t := mk 0 0 0 fee now.

Definition initialize (tokenAAmount tokenBAmount now : R)
  : M AddLiquidityResult.t :=
  p <- this ;;
  if decide (lpTokenSupply p > 0) then throw AlreadyInitialized else
  if decide (tokenAAmount <= 0 \/ tokenBAmount <= 0)
  then throw InvalidAmount else
  let initialLiquidity := sqrt (tokenAAmount * tokenBAmount) in
  if decide (initialLiquidity < MINIMUM_LIQUIDITY)
  then throw InitialLiquidityTooLow else
  assign (set_tokenAReserve tokenAAmount) ;;;
  assign (set_tokenBReserve tokenBAmount) ;;;
  assign (set_lpTokenSupply (initialLiquidity - MINIMUM_LIQUIDITY)) ;;;
  assign (set_lastUpdate now) ;;;
  p <- this ;;
  ret (AddLiquidityResult.mk (lpTokenSupply p) tokenAAmount tokenBAmount 1).

Definition getPrice : M R :=
  p <- this ;;
  if decide (tokenAReserve p = 0) then ret 0
  else ret (tokenBReserve p / tokenAReserve p).

Definition getSpotPrice (tokenIn : Token) : M R :=
  p <- this ;;
  match tokenIn with
  | A => ret (if decide (tokenAReserve p > 0)
              then tokenBReserve p / tokenAReserve p else 0)
  | B => ret (if decide (tokenBReserve p > 0)
              then tokenAReserve p / tokenBReserve p else 0)
  end.

Definition simulateSwap (amountIn : R) (tokenIn : Token) : M SwapResult.t :=
  p <- this ;;
  if decide (amountIn <= 0) then throw InvalidSwapAmount else
  let feeAmount := amountIn * fee p in
  let amountInAfterFee := amountIn - feeAmount in
  let '(amountOut, newReserveIn, newReserveOut) :=
    match tokenIn with
    | A =>
        let newReserveIn := tokenAReserve p + amountInAfterFee in
        let k := tokenAReserve p * tokenBReserve p in
        let newReserveOut := k / newReserveIn in
        (tokenBReserve p - newReserveOut, newReserveIn, newReserveOut)
    | B =>
        let newReserveIn := tokenBReserve p + amountInAfterFee in
        let k := tokenAReserve p * tokenBReserve p in
        let newReserveOut := k / newReserveIn in
        (tokenAReserve p - newReserveOut, newReserveIn, newReserveOut)
    end in
  spotPriceBefore <- getSpotPrice tokenIn ;;
  let executionPrice := amountOut / amountIn in
  let priceImpact :=
    Rabs (executionPrice - spotPriceBefore) / spotPriceBefore in
  let newPrice :=
    match tokenIn with
    | A => newReserveOut / newReserveIn
    | B => newReserveIn / newReserveOut
    end in
  ret (SwapResult.mk amountIn amountOut priceImpact feeAmount newPrice).

Definition executeSwap (amountIn : R) (tokenIn : Token) (minAmountOut now : R)
  : M SwapResult.t :=
  result <- simulateSwap amountIn tokenIn ;;
  if decide (SwapResult.amountOut result < minAmountOut)
  then throw (SlippageExceeded minAmountOut (SwapResult.amountOut result))
  else
  let amountInAfterFee := amountIn - SwapResult.fee result in
  match tokenIn with
  | A =>
      assign (fun p => set_tokenAReserve (tokenAReserve p + amountInAfterFee) p) ;;;
      assign (fun p => set_tokenBReserve
                         (tokenBReserve p - SwapResult.amountOut result) p)
  | B =>
      assign (fun p => set_tokenBReserve (tokenBReserve p + amountInAfterFee) p) ;;;
      assign (fun p => set_tokenAReserve
                         (tokenAReserve p - SwapResult.amountOut result) p)
  end ;;;
  assign (set_lastUpdate now) ;;;
  ret result.

Definition addLiquidity (tokenAAmount tokenBAmount now : R)
  : M AddLiquidityResult.t :=
  p <- this ;;
  if decide (lpTokenSupply p = 0)
  then initialize tokenAAmount tokenBAmount now else
  let currentRatio := tokenBReserve p / tokenAReserve p in
  let providedRatio := tokenBAmount / tokenAAmount in
  let '(actualTokenA, actualTokenB) :=
    if decide (providedRatio > currentRatio)
    then (tokenAAmount, tokenAAmount * currentRatio)
    else (tokenBAmount / currentRatio, tokenBAmount) in
  let lpTokensMinted :=
    Rmin ((actualTokenA * lpTokenSupply p) / tokenAReserve p)
         ((actualTokenB * lpTokenSupply p) / tokenBReserve p) in
  assign (fun p => set_tokenAReserve (tokenAReserve p + actualTokenA) p) ;;;
  assign (fun p => set_tokenBReserve (tokenBReserve p + actualTokenB) p) ;;;
  assign (fun p => set_lpTokenSupply (lpTokenSupply p + lpTokensMinted) p) ;;;
  assign (set_lastUpdate now) ;;;
  p <- this ;;
  ret (AddLiquidityResult.mk lpTokensMinted actualTokenA actualTokenB
         (lpTokensMinted / lpTokenSupply p)).

Definition removeLiquidity (lpTokens now : R) : M RemoveLiquidityResult.t :=
  p <- this ;;
  if decide (lpTokens <= 0 \/ lpTokens > lpTokenSupply p)
  then throw InvalidLpAmount else
  let shareRatio := lpTokens / lpTokenSupply p in
  let tokenAAmount := tokenAReserve p * shareRatio in
  let tokenBAmount := tokenBReserve p * shareRatio in
  assign (fun p => set_tokenAReserve (tokenAReserve p - tokenAAmount) p) ;;;
  assign (fun p => set_tokenBReserve (tokenBReserve p - tokenBAmount) p) ;;;
  assign (fun p => set_lpTokenSupply (lpTokenSupply p - lpTokens) p) ;;;
  assign (set_lastUpdate now) ;;;
  ret (RemoveLiquidityResult.mk lpTokens tokenAAmount tokenBAmount 0).

Definition getAmountOut (amountIn : R) (tokenIn : Token) : M R :=
  r <- simulateSwap amountIn tokenIn ;;
  ret (SwapResult.amountOut r).

Definition getAmountIn (amountOut : R) (tokenOut : Token) : M R :=
  p <- this ;;
  if decide (amountOut <= 0) then ret 0 else
  let '(reserveIn, reserveOut) :=
    match tokenOut with
    | A => (tokenBReserve p, tokenAReserve p)
    | B => (tokenAReserve p, tokenBReserve p)
    end in
  if decide (amountOut >= reserveOut) then throw InsufficientLiquidity else
  let numerator := reserveIn * amountOut in
  let denominator := (reserveOut - amountOut) * (1 - fee p) in
  ret (numerator / denominator).

Definition setFee (fee : R) : M unit :=
  if decide (fee < 0 \/ fee >= 1) then throw InvalidFee else
  assign (set_fee fee).

Definition reset (now : R) : M unit :=
  assign (set_tokenAReserve 0) ;;;
  assign (set_tokenBReserve 0) ;;;
  assign (set_lpTokenSupply 0) ;;;
  assign (set_lastUpdate now).

(** The pool of the documentation: [new LiquidityPool(0.003)] followed by
    [initialize(10000, 15000)], the clock reading 0 throughout. *)
Definition example_pool : t :=
  snd (initialize 10000 15000 0 (constructor 0.003 0)).

Definition getState : M PoolState.t :=
  p <- this ;;
  ret (PoolState.mk (tokenAReserve p) (tokenBReserve p)
         (sqrt (tokenAReserve p * tokenBReserve p))
         (lpTokenSupply p) (fee p) (lastUpdate p)).

Definition getLiquidityPosition (lpTokens : R) : M LiquidityPosition.t :=
  p <- this ;;
  if decide (lpTokens <= 0 \/ lpTokenSupply p = 0)
  then ret (LiquidityPosition.mk 0 0 0 0 0 0 0) else
  let shareOfPool := lpTokens / lpTokenSupply p in
  let tokenAAmount := tokenAReserve p * shareOfPool in
  let tokenBAmount := tokenBReserve p * shareOfPool in
  currentPrice <- getPrice ;;
  let currentValue := tokenAAmount * currentPrice + tokenBAmount in
  ret (LiquidityPosition.mk lpTokens shareOfPool tokenAAmount tokenBAmount
         currentPrice currentValue 0).

(** A method that reads no field. *)
Definition calculateImpermanentLoss (entryPrice currentPrice : R) : R :=
  let priceRatio := currentPrice / entryPrice in
  let sqrtRatio := sqrt priceRatio in
  let holdValue := (1 + priceRatio) / 2 in
  let lpValue := sqrtRatio in
  lpValue / holdValue - 1.

(** The object [calculateOptimalSwapAmount] returns when it is not [null]. *)
Record OptimalSwap := mkOptimalSwap { swapAmount : R; tokenToSwap : Token }.

Definition calculateOptimalSwapAmount (tokenAToAdd tokenBToAdd : R)
  : M (option OptimalSwap) :=
  p <- this ;;
  let currentRatio := tokenBReserve p / tokenAReserve p in
  let providedRatio := tokenBToAdd / tokenAToAdd in
  if decide (Rabs (providedRatio - currentRatio) < 0.001) then ret None else
  if decide (providedRatio > currentRatio) then
    let excessB := tokenBToAdd - tokenAToAdd * currentRatio in
    let swapAmount := excessB / (2 * (1 + currentRatio * (1 - fee p))) in
    ret (Some (mkOptimalSwap swapAmount B))
  else
    let excessA := tokenAToAdd - tokenBToAdd / currentRatio in
    let swapAmount := excessA / (2 * (1 + (1 - fee p) / currentRatio)) in
    ret (Some (mkOptimalSwap swapAmount A)).

(** The functions exported beside the class. *)
Definition calculateK (reserveA reserveB : R) : R := reserveA * reserveB.

Definition calculatePriceFromReserves (reserveA reserveB : R) : R :=
  if decide (reserveA > 0) then reserveB / reserveA else 0.

Definition estimateSlippage (amountIn reserveIn reserveOut fee : R) : R :=
  let amountInAfterFee := amountIn * (1 - fee) in
  let amountOut :=
    (reserveOut * amountInAfterFee) / (reserveIn + amountInAfterFee) in
  let spotPrice := reserveOut / reserveIn in
  let executionPrice := amountOut / amountIn in
  Rabs (executionPrice - spotPrice) / spotPrice.

(** A client of the pool: the calls that write to it, each run to its return
    or to its throw, one after the other on the same pool. *)
Inductive Call :=
| CallInitialize (tokenAAmount tokenBAmount now : R)
| CallExecuteSwap (amountIn : R) (tokenIn : Token) (minAmountOut now : R)
| CallAddLiquidity (tokenAAmount tokenBAmount now : R)
| CallRemoveLiquidity (lpTokens now : R)
| CallSetFee (fee : R)
| CallReset (now : R).

Definition call (c : Call) (p : t) : t :=
  match c with
  | CallInitialize a b now => snd (initialize a b now p)
  | CallExecuteSwap a tk m now => snd (executeSwap a tk m now p)
  | CallAddLiquidity a b now => snd (addLiquidity a b now p)
  | CallRemoveLiquidity lp now => snd (removeLiquidity lp now p)
  | CallSetFee f => snd (setFee f p)
  | CallReset now => snd (reset now p)
  end.

Definition calls (l : list Call) (p : t) : t := fold_left (fun p c => call c p) l p.

End LiquidityPool.

(** ** [inventory.ts] *)

Module InventoryController.

Definition DEFAULT_INVENTORY_CONFIG : InventoryConfig.t :=
  InventoryConfig.mk 0 1000 (-1000) 0.3 1.5.

(** What [console.warn] is given. *)
Inductive Warning :=
| ExceededMax (inventory limit : R)
    (* `Inventory exceeded max limit: ${inventory} > ${limit}` *)
| BelowMin (inventory limit : R).
    (* `Inventory below min limit: ${inventory} < ${limit}` *)

(** The private fields of the class; [tradeHistory] grows at its end. *)
Record t := mk
  { config : InventoryConfig.t; currentInventory : R;
    tradeHistory : list Trade.t; avgEntryPrice : R }.

Definition set_currentInventory (v : R) (c : t) : t :=
  mk (config c) v (tradeHistory c) (avgEntryPrice c).
Definition set_tradeHistory (v : list Trade.t) (c : t) : t :=
  mk (config c) (currentInventory c) v (avgEntryPrice c).
Definition set_avgEntryPrice (v : R) (c : t) : t :=
  mk (config c) (currentInventory c) (tradeHistory c) v.

Definition constructor (config : InventoryConfig.t) : t := mk config 0 [] 0.

(** [Array.prototype.slice(-n)]: the last [n] elements. *)
Definition slice_last {T} (n : nat) (l : list T) : list T :=
  drop (length l - n) l.

Definition calculateSkewFactor (c : t) : R :=
  let cfg := config c in
  let deviation := currentInventory c - InventoryConfig.targetInventory cfg in
  let maxDeviation :=
    Rmax (Rabs (InventoryConfig.maxInventory cfg
                - InventoryConfig.targetInventory cfg))
         (Rabs (InventoryConfig.minInventory cfg
                - InventoryConfig.targetInventory cfg)) in
  if decide (maxDeviation = 0) then 0 else
  let normalizedDeviation := deviation / maxDeviation in
  tanh (normalizedDeviation * InventoryConfig.skewSensitivity cfg).

Definition getState (c : t) : InventoryState.t :=
  let cfg := config c in
  let range := InventoryConfig.maxInventory cfg
               - InventoryConfig.minInventory cfg in
  let normalizedInventory :=
    currentInventory c - InventoryConfig.minInventory cfg in
  let inventoryRatio :=
    if decide (range > 0) then normalizedInventory / range else 0.5 in
  InventoryState.mk
    (currentInventory c)
    (InventoryConfig.targetInventory cfg)
    (Rmax 0 (Rmin 1 inventoryRatio))
    (calculateSkewFactor c)
    (InventoryConfig.maxInventory cfg)
    (InventoryConfig.minInventory cfg).

(** Called after [currentInventory] has already been moved by [size]. *)
Definition updateAvgEntryPrice (price size : R) (side : Side) (c : t) : t :=
  match side with
  | buy =>
      if decide (currentInventory c > 0) then
        let previousValue := avgEntryPrice c * (currentInventory c - size) in
        let newValue := price * size in
        set_avgEntryPrice ((previousValue + newValue) / currentInventory c) c
      else c
  | sell =>
      if decide (currentInventory c < 0) then
        let previousValue :=
          avgEntryPrice c * Rabs (currentInventory c + size) in
        let newValue := price * size in
        set_avgEntryPrice
          ((previousValue + newValue) / Rabs (currentInventory c)) c
      else c
  end.

Definition enforceInventoryLimits (previousInventory : R) (c : t)
  : t * list Warning :=
  let cfg := config c in
  if decide (currentInventory c > InventoryConfig.maxInventory cfg) then
    (set_currentInventory (InventoryConfig.maxInventory cfg) c,
     [ExceededMax (currentInventory c) (InventoryConfig.maxInventory cfg)])
  else if decide (currentInventory c < InventoryConfig.minInventory cfg) then
    (set_currentInventory (InventoryConfig.minInventory cfg) c,
     [BelowMin (currentInventory c) (InventoryConfig.minInventory cfg)])
  else (c, []).

Definition updateInventory (trade : Trade.t) (c : t) : t * list Warning :=
  let previousInventory := currentInventory c in
  let c :=
    match Trade.side trade with
    | buy =>
        let c := set_currentInventory
                   (currentInventory c + Trade.size trade) c in
        updateAvgEntryPrice (Trade.price trade) (Trade.size trade) buy c
    | sell =>
        let c := set_currentInventory
                   (currentInventory c - Trade.size trade) c in
        updateAvgEntryPrice (Trade.price trade) (Trade.size trade) sell c
    end in
  let c := set_tradeHistory (tradeHistory c ++ [trade]) c in
  let c :=
    if decide (1000 < length (tradeHistory c))%nat
    then set_tradeHistory (slice_last 500 (tradeHistory c)) c
    else c in
  enforceInventoryLimits previousInventory c.

(** [this.currentInventory] as [updateInventory] has moved it when
    [updateAvgEntryPrice] and [enforceInventoryLimits] read it: a buy has
    added the size, a sell has taken it off. *)
Definition moved (trade : Trade.t) (c : t) : R :=
  match Trade.side trade with
  | buy => currentInventory c + Trade.size trade
  | sell => currentInventory c - Trade.size trade
  end.

Definition needsRebalancing (c : t) : bool :=
  let cfg := config c in
  let deviation :=
    Rabs (currentInventory c - InventoryConfig.targetInventory cfg) in
  let range := InventoryConfig.maxInventory cfg
               - InventoryConfig.minInventory cfg in
  bool_decide (deviation / range > InventoryConfig.rebalanceThreshold cfg).

Definition getRebalanceAmount (c : t) : R :=
  InventoryConfig.targetInventory (config c) - currentInventory c.

Definition calculatePosition (currentPrice : R) (c : t) : Position.t :=
  let netExposure := currentInventory c * currentPrice in
  let unrealizedPnL :=
    if decide (currentInventory c > 0)
    then currentInventory c * (currentPrice - avgEntryPrice c)
    else if decide (currentInventory c < 0)
    then Rabs (currentInventory c) * (avgEntryPrice c - currentPrice)
    else 0 in
  Position.mk (currentInventory c) (- netExposure) netExposure unrealizedPnL.

Definition shouldAcceptOrder (side : Side) (size : R) (c : t) : bool :=
  match side with
  | buy => bool_decide (currentInventory c + size
                        <= InventoryConfig.maxInventory (config c))
  | sell => bool_decide (currentInventory c - size
                         >= InventoryConfig.minInventory (config c))
  end.

Definition getMaxOrderSize (side : Side) (c : t) : R :=
  match side with
  | buy => Rmax 0 (InventoryConfig.maxInventory (config c)
                   - currentInventory c)
  | sell => Rmax 0 (currentInventory c
                    - InventoryConfig.minInventory (config c))
  end.

Definition setInventory (inventory : R) (c : t) : t :=
  set_currentInventory
    (Rmax (InventoryConfig.minInventory (config c))
          (Rmin (InventoryConfig.maxInventory (config c)) inventory)) c.

Definition reset (c : t) : t :=
  mk (config c) (InventoryConfig.targetInventory (config c)) [] 0.

Definition getInventoryUtilization (c : t) : R :=
  let cfg := config c in
  let used :=
    Rabs (currentInventory c - InventoryConfig.targetInventory cfg) in
  let available :=
    Rmax (Rabs (InventoryConfig.maxInventory cfg
                - InventoryConfig.targetInventory cfg))
         (Rabs (InventoryConfig.minInventory cfg
                - InventoryConfig.targetInventory cfg)) in
  if decide (available > 0) then used / available else 0.

(** The object [getTradeStats] returns. *)
Record TradeStats := mkTradeStats
  { count : nat; buyVolume : R; sellVolume : R; netVolume : R }.

Definition getTradeStats (c : t) : TradeStats :=
  let '(buyVolume, sellVolume) :=
    fold_left
      (fun '(buyVolume, sellVolume) trade =>
         match Trade.side trade with
         | buy => (buyVolume + Trade.size trade, sellVolume)
         | sell => (buyVolume, sellVolume + Trade.size trade)
         end)
      (tradeHistory c) (0, 0) in
  mkTradeStats (length (tradeHistory c)) buyVolume sellVolume
    (buyVolume - sellVolume).

(** A client of the ledger: a run of fills fed to [updateInventory] one
    after the other, the warnings in the order they were given. *)
Fixpoint updateAll (trades : list Trade.t) (c : t) : t * list Warning :=
  match trades with
  | [] => (c, [])
  | trade :: rest =>
      let '(c, w) := updateInventory trade c in
      let '(c, ws) := updateAll rest c in
      (c, w ++ ws)
  end.

End InventoryController.

(** ** [spread.ts] *)

Module SpreadCalculator.

Definition DEFAULT_SPREAD_CONFIG : SpreadConfig.t :=
  SpreadConfig.mk 0.002 0.0005 0.02 2.0 0.5.

(** The object [calculateOptimalSpread] returns. *)
Record Spreads := mkSpreads { bidSpread : R; askSpread : R }.

(** The only private field is the configuration. *)
Record t := mk { config : SpreadConfig.t }.

Definition constructor (config : SpreadConfig.t) : t := mk config.

Definition calculateBaseSpread (c : t) (marketData : MarketData.t) : R :=
  let volumeFactor :=
    Rmax 0.5 (Rmin 2 (1000000 / (MarketData.volume24h marketData + 1))) in
  SpreadConfig.baseSpread (config c) * volumeFactor.

Definition calculateVolatilityAdjustment (c : t) (volatility : R) : R :=
  let normalizedVolatility := Rmax 0 (volatility - 0.01) in
  normalizedVolatility * SpreadConfig.volatilityMultiplier (config c).

Definition calculateInventorySkew (c : t) (inventoryState : InventoryState.t)
  : R :=
  let deviation := InventoryState.inventoryRatio inventoryState - 0.5 in
  deviation * SpreadConfig.inventorySkewMultiplier (config c) * 2.

(** The local [totalSpread] of [calculateOptimalSpread]. *)
Definition totalSpread (c : t) (marketData : MarketData.t) : R :=
  let baseSpread := calculateBaseSpread c marketData in
  let volatilityAdjustment :=
    calculateVolatilityAdjustment c (MarketData.volatility marketData) in
  Rmin (Rmax (baseSpread + volatilityAdjustment)
             (SpreadConfig.minSpread (config c)))
       (SpreadConfig.maxSpread (config c)).

Definition calculateOptimalSpread (c : t) (marketData : MarketData.t)
    (inventoryState : InventoryState.t) : Spreads :=
  let inventorySkew := calculateInventorySkew c inventoryState in
  let totalSpread := totalSpread c marketData in
  let halfSpread := totalSpread / 2 in
  let bidSpread := halfSpread * (1 + inventorySkew) in
  let askSpread := halfSpread * (1 - inventorySkew) in
  mkSpreads (Rmax bidSpread (SpreadConfig.minSpread (config c) / 2))
            (Rmax askSpread (SpreadConfig.minSpread (config c) / 2)).

(** The two values of the [side] parameter of [adjustOrderSize]. *)
Inductive QuoteSide := bid | ask.

Definition adjustOrderSize (baseSize : R) (inventoryState : InventoryState.t)
    (side : QuoteSide) : R :=
  let ratio := InventoryState.inventoryRatio inventoryState in
  match side with
  | bid =>
      let factor :=
        if decide (ratio > 0.5) then 1 - (ratio - 0.5) * 0.8
        else 1 + (0.5 - ratio) * 0.4 in
      baseSize * Rmax 0.2 (Rmin 1.5 factor)
  | ask =>
      let factor :=
        if decide (ratio < 0.5) then 1 - (0.5 - ratio) * 0.8
        else 1 + (ratio - 0.5) * 0.4 in
      baseSize * Rmax 0.2 (Rmin 1.5 factor)
  end.

(** [Math.round(x)] is the integer part of [x + 0.5]. *)
Definition roundToTickSize (value tickSize : R) : R :=
  IZR (Int_part (value / tickSize + 0.5)) * tickSize.

Definition generateQuote (c : t) (midPrice : R) (marketData : MarketData.t)
    (inventoryState : InventoryState.t) (orderSize : R) : Quote.t :=
  let spreads := calculateOptimalSpread c marketData inventoryState in
  let bidPrice := midPrice * (1 - bidSpread spreads) in
  let askPrice := midPrice * (1 + askSpread spreads) in
  let adjustedBidSize := adjustOrderSize orderSize inventoryState bid in
  let adjustedAskSize := adjustOrderSize orderSize inventoryState ask in
  Quote.mk (roundToTickSize bidPrice 0.0001) adjustedBidSize
           (roundToTickSize askPrice 0.0001) adjustedAskSize
           (askPrice - bidPrice) midPrice.

(** The functions exported beside the class. *)
Definition calculateEffectiveSpread (quote : Quote.t) : R :=
  (Quote.askPrice quote - Quote.bidPrice quote) / Quote.midPrice quote.

Definition calculateMidPrice (bidPrice askPrice : R) : R :=
  (bidPrice + askPrice) / 2.

Definition calculateWeightedMidPrice (bidPrice bidSize askPrice askSize : R)
  : R :=
  let totalSize := bidSize + askSize in
  if decide (totalSize = 0) then (bidPrice + askPrice) / 2
  else (bidPrice * askSize + askPrice * bidSize) / totalSize.

(** The array [returns] of [estimateVolatility]: the logarithm of each price
    over the one before it. *)
Fixpoint logReturns (prices : list R) : list R :=
  match prices with
  | previous :: (current :: _) as rest =>
      ln (current / previous) :: logReturns rest
  | _ => []
  end.


End SpreadCalculator.

(** ** [marketMaker.ts] *)

Module MarketMaker.

Definition DEFAULT_CONFIG : MarketMakerConfig.t :=
  MarketMakerConfig.mk
    (SpreadConfig.mk 0.002 0.0005 0.02 2.0 0.5)
    (InventoryConfig.mk 0 1000 (-1000) 0.3 1.5)
    100 500 10 0.0001 0.01 1000.

(** The private fields of the class.  [activeOrders] is the [Map] from
    order id to order, [tradeHistory] grows at its end. *)
Record t := mk
  { config : MarketMakerConfig.t;
    spreadCalculator : SpreadCalculator.t;
    inventoryController : InventoryController.t;
    liquidityPool : LiquidityPool.t;
    activeOrders : gmap string Order.t;
    tradeHistory : list Trade.t;
    isRunning : bool;
    startTime : R;
    totalVolume : R;
    realizedPnL : R }.

Definition set_inventoryController (v : InventoryController.t) (m : t) : t :=
  mk (config m) (spreadCalculator m) v (liquidityPool m) (activeOrders m)
     (tradeHistory m) (isRunning m) (startTime m) (totalVolume m)
     (realizedPnL m).
Definition set_activeOrders (v : gmap string Order.t) (m : t) : t :=
  mk (config m) (spreadCalculator m) (inventoryController m)
     (liquidityPool m) v (tradeHistory m) (isRunning m) (startTime m)
     (totalVolume m) (realizedPnL m).
Definition set_tradeHistory (v : list Trade.t) (m : t) : t :=
  mk (config m) (spreadCalculator m) (inventoryController m)
     (liquidityPool m) (activeOrders m) v (isRunning m) (startTime m)
     (totalVolume m) (realizedPnL m).
Definition set_totalVolume (v : R) (m : t) : t :=
  mk (config m) (spreadCalculator m) (inventoryController m)
     (liquidityPool m) (activeOrders m) (tradeHistory m) (isRunning m)
     (startTime m) v (realizedPnL m).
Definition set_realizedPnL (v : R) (m : t) : t :=
  mk (config m) (spreadCalculator m) (inventoryController m)
     (liquidityPool m) (activeOrders m) (tradeHistory m) (isRunning m)
     (startTime m) (totalVolume m) v.

(** [now] is the [Date.now()] read by [new LiquidityPool()]. *)
Definition constructor (config : MarketMakerConfig.t) (now : R) : t :=
  mk config
     (SpreadCalculator.constructor (MarketMakerConfig.spread config))
     (InventoryController.constructor (MarketMakerConfig.inventory config))
     (LiquidityPool.constructor LiquidityPool.DEFAULT_POOL_FEE now)
     ∅ [] false 0 0 0.

(** [Math.round]: the nearest integer, halves upwards. *)
Definition Math_round (x : R) : R := IZR (Int_part (x + 0.5)).

Definition roundToTick (value tickSize : R) : R :=
  Math_round (value / tickSize) * tickSize.

(** [id] stands for the generated identifier and [now] for the reading of
    the clock, taken to be the same for [createdAt] and [updatedAt]. *)
Definition createOrderObject (side : Side) (price size : R)
    (id : string) (now : R) (m : t) : Order.t :=
  Order.mk id side
    (roundToTick price (MarketMakerConfig.priceTickSize (config m)))
    (roundToTick size (MarketMakerConfig.sizeTickSize (config m)))
    0 pending now now.

Definition createOrder (side : Side) (price size : R)
    (id : string) (now : R) (m : t) : Order.t :=
  let adjustedSize :=
    Rmax (MarketMakerConfig.minOrderSize (config m))
         (Rmin (MarketMakerConfig.maxOrderSize (config m)) size) in
  if negb (InventoryController.shouldAcceptOrder side adjustedSize
             (inventoryController m))
  then
    let maxSize :=
      InventoryController.getMaxOrderSize side (inventoryController m) in
    createOrderObject side price (Rmin adjustedSize maxSize) id now m
  else createOrderObject side price adjustedSize id now m.

(** The [MarketMaker]'s own average: over the buys of its trade history. *)
Definition getAvgEntryPrice (m : t) : R :=
  if decide (length (tradeHistory m) = 0%nat) then 0 else
  let '(totalCost, totalSize) :=
    fold_left
      (fun '(totalCost, totalSize) trade =>
         match Trade.side trade with
         | buy => (totalCost + Trade.price trade * Trade.size trade,
                   totalSize + Trade.size trade)
         | sell => (totalCost, totalSize)
         end)
      (tradeHistory m) (0, 0) in
  if decide (totalSize > 0) then totalCost / totalSize else 0.

Definition updateRealizedPnL (trade : Trade.t) (m : t) : t :=
  let position :=
    InventoryController.calculatePosition (Trade.price trade)
      (inventoryController m) in
  if decide ((Trade.side trade = sell /\ Position.baseBalance position >= 0)
             \/ (Trade.side trade = buy
                 /\ Position.baseBalance position <= 0))
  then
    let pnl :=
      match Trade.side trade with
      | sell => (Trade.price trade - getAvgEntryPrice m) * Trade.size trade
      | buy => (getAvgEntryPrice m - Trade.price trade) * Trade.size trade
      end in
    set_realizedPnL (realizedPnL m + (pnl - Trade.fee trade)) m
  else m.

(** [updatedAt], [tradeId] and [timestamp] are what [Date.now()] and the
    identifier source give during the call.  The order found in the table
    is the object the table holds: its updates are seen through the table
    for as long as it stays there. *)
Definition processFill (orderId : string) (filledSize fillPrice : R)
    (updatedAt : R) (tradeId : string) (timestamp : R) (m : t)
  : option Trade.t * list InventoryController.Warning * t :=
  match activeOrders m !! orderId with
  | None => (None, [], m)
  | Some order =>
      let order :=
        Order.set_filledSize (Order.filledSize order + filledSize) order in
      let order := Order.set_updatedAt updatedAt order in
      let m :=
        if decide (Order.filledSize order >= Order.size order) then
          set_activeOrders (delete orderId (activeOrders m)) m
        else
          set_activeOrders
            (<[orderId := Order.set_status partial order]> (activeOrders m))
            m in
      let trade :=
        Trade.mk tradeId (Order.side order) fillPrice filledSize timestamp
          (filledSize * fillPrice * 0.001) in
      let '(ic, warnings) :=
        InventoryController.updateInventory trade (inventoryController m) in
      let m := set_inventoryController ic m in
      let m := set_tradeHistory (tradeHistory m ++ [trade]) m in
      let m := set_totalVolume (totalVolume m + filledSize * fillPrice) m in
      let m := updateRealizedPnL trade m in
      (Some trade, warnings, m)
  end.

Definition placeOrders (bidPrice bidSize askPrice askSize : R)
    (bidId : string) (bidNow : R) (askId : string) (askNow : R) (m : t)
  : (Order.t * Order.t) * t :=
  let bidOrder := createOrder buy bidPrice bidSize bidId bidNow m in
  let askOrder := createOrder sell askPrice askSize askId askNow m in
  let m := set_activeOrders (<[Order.id bidOrder := bidOrder]> (activeOrders m)) m in
  let m := set_activeOrders (<[Order.id askOrder := askOrder]> (activeOrders m)) m in
  ((bidOrder, askOrder), m).

Definition cancelOrder (orderId : string) (m : t) : bool * t :=
  match activeOrders m !! orderId with
  | None => (false, m)
  | Some _ => (true, set_activeOrders (delete orderId (activeOrders m)) m)
  end.

Definition set_isRunning (v : bool) (m : t) : t :=
  mk (config m) (spreadCalculator m) (inventoryController m)
     (liquidityPool m) (activeOrders m) (tradeHistory m) v (startTime m)
     (totalVolume m) (realizedPnL m).
Definition set_startTime (v : R) (m : t) : t :=
  mk (config m) (spreadCalculator m) (inventoryController m)
     (liquidityPool m) (activeOrders m) (tradeHistory m) (isRunning m) v
     (totalVolume m) (realizedPnL m).

Definition start (now : R) (m : t) : t :=
  if isRunning m then m else set_startTime now (set_isRunning true m).

(** The loop visits every key the table holds when it starts; the table
    enumerates them in an order of its own, on which the outcome does not
    depend. *)
Definition cancelAllOrders (m : t) : t :=
  fold_left (fun m orderId => snd (cancelOrder orderId m))
    (map fst (map_to_list (activeOrders m))) m.

Definition stop (m : t) : t := cancelAllOrders (set_isRunning false m).

Definition generateQuotes (marketData : MarketData.t) (m : t) : Quote.t :=
  let inventoryState :=
    InventoryController.getState (inventoryController m) in
  let midPrice :=
    (MarketData.bidPrice marketData + MarketData.askPrice marketData) / 2 in
  SpreadCalculator.generateQuote (spreadCalculator m) midPrice marketData
    inventoryState (MarketMakerConfig.orderSize (config m)).

(** [orderId] and [createdAt] are what [createOrder] is given by the
    identifier source and the clock; the last three arguments are those of
    [processFill]. *)
Definition executeRebalance (marketData : MarketData.t)
    (orderId : string) (createdAt : R)
    (updatedAt : R) (tradeId : string) (timestamp : R) (m : t)
  : option Trade.t * list InventoryController.Warning * t :=
  if negb (InventoryController.needsRebalancing (inventoryController m))
  then (None, [], m) else
  let rebalanceAmount :=
    InventoryController.getRebalanceAmount (inventoryController m) in
  let side := if decide (rebalanceAmount > 0) then buy else sell in
  let size := Rabs rebalanceAmount in
  let price :=
    match side with
    | buy => MarketData.askPrice marketData
    | sell => MarketData.bidPrice marketData
    end in
  let order := createOrder side price size orderId createdAt m in
  processFill (Order.id order) size price updatedAt tradeId timestamp m.

Definition getPosition (m : t) : Position.t :=
  let lastPrice :=
    match last (tradeHistory m) with
    | Some trade => Trade.price trade
    | None => 0
    end in
  InventoryController.calculatePosition lastPrice (inventoryController m).

End MarketMaker.

(** ** Vocabulary of the statements *)

(** A pool that has liquidity on both sides and charges less than the whole
    input: what [initialize] and [setFee] establish. *)
Definition healthy (p : LiquidityPool.t) : Prop :=
  0 < LiquidityPool.tokenAReserve p /\ 0 < LiquidityPool.tokenBReserve p /\
  0 <= LiquidityPool.fee p < 1.

(** The locals [reserveIn] and [reserveOut] of a swap paying [tk] in. *)
Definition reserveIn (tk : Token) (p : LiquidityPool.t) : R :=
  match tk with
  | A => LiquidityPool.tokenAReserve p
  | B => LiquidityPool.tokenBReserve p
  end.
Definition reserveOut (tk : Token) (p : LiquidityPool.t) : R :=
  match tk with
  | A => LiquidityPool.tokenBReserve p
  | B => LiquidityPool.tokenAReserve p
  end.
Definition other (tk : Token) : Token := match tk with A => B | B => A end.

(** What the data model asks of a pool at rest: no negative reserve or
    supply, a fee in [0,1), and liquidity on both sides whenever LP tokens
    are outstanding. *)
Definition invariant (p : LiquidityPool.t) : Prop :=
  0 <= LiquidityPool.tokenAReserve p /\ 0 <= LiquidityPool.tokenBReserve p /\
  0 <= LiquidityPool.lpTokenSupply p /\
  (0 < LiquidityPool.lpTokenSupply p ->
   0 < LiquidityPool.tokenAReserve p /\ 0 < LiquidityPool.tokenBReserve p) /\
  0 <= LiquidityPool.fee p < 1.

(** The one thing asked of the client: it offers positive amounts when it
    adds liquidity (nothing in [addLiquidity] checks it). *)
Definition positive_deposit (c : LiquidityPool.Call) : Prop :=
  match c with
  | LiquidityPool.CallAddLiquidity a b _ => 0 < a /\ 0 < b
  | _ => True
  end.

(** The inventory sits within the configured limits. *)
Definition within_limits (c : InventoryController.t) : Prop :=
  InventoryConfig.minInventory (InventoryController.config c)
    <= InventoryController.currentInventory c
    <= InventoryConfig.maxInventory (InventoryController.config c).

(** * Properties *)

(** ** The liquidity pool *)

Section LiquidityPoolFacts.
Import LiquidityPool.

Ltac run_method :=
  unfold executeSwap, getAmountOut, getAmountIn, simulateSwap, getSpotPrice,
    getPrice, initialize, removeLiquidity, setFee,
    bind, this, ret, throw, assign; simpl.

(** [simulateSwap] reads the pool and leaves it as it is. *)
Lemma simulateSwap_readonly a tk p : snd (simulateSwap a tk p) = p.
Proof.
  run_method. case_decide; [reflexivity|]. destruct tk; reflexivity.
Qed.

Lemma simulateSwap_split a tk p :
  simulateSwap a tk p = (fst (simulateSwap a tk p), p).
Proof.
  rewrite <- (simulateSwap_readonly a tk p) at 3. apply surjective_pairing.
Qed.

(** What a returned simulation holds. *)
Lemma simulateSwap_returned a tk p r :
  fst (simulateSwap a tk p) = Returned r ->
  0 < a /\
  SwapResult.amountIn r = a /\
  SwapResult.fee r = a * fee p /\
  SwapResult.amountOut r =
    match tk with
    | A => tokenBReserve p
           - tokenAReserve p * tokenBReserve p
             / (tokenAReserve p + (a - a * fee p))
    | B => tokenAReserve p
           - tokenAReserve p * tokenBReserve p
             / (tokenBReserve p + (a - a * fee p))
    end.
Proof.
  run_method. case_decide; [discriminate|].
  destruct tk; simpl; intros [= <-]; simpl; repeat split; lra.
Qed.

(** A positive amount is always simulated: only [amountIn <= 0] throws. *)
Lemma simulateSwap_total a tk p :
  0 < a -> exists r, fst (simulateSwap a tk p) = Returned r.
Proof.
  intros Ha. run_method. case_decide; [lra|].
  destruct tk; simpl; eexists; reflexivity.
Qed.

Lemma simulateSwap_throws a tk p :
  a <= 0 -> simulateSwap a tk p = (Thrown InvalidSwapAmount, p).
Proof. intros Ha. run_method. case_decide; [reflexivity|lra]. Qed.

(** With positive reserves and a fee in [0,1) the output of a swap lies
    strictly between 0 and the reserve it is taken from. *)
Lemma amountOut_bounds (rin rout f x : R) :
  0 < rin -> 0 < rout -> 0 <= f < 1 -> 0 < x ->
  0 < rout - rin * rout / (rin + (x - x * f)) < rout.
Proof.
  intros Hin Hout Hf Hx.
  assert (Hx1 : 0 < x * (1 - f)) by (apply Rmult_lt_0_compat; lra).
  assert (Hd : 0 < rin + (x - x * f)) by lra.
  assert (Hk : 0 < rin * rout) by (apply Rmult_lt_0_compat; lra).
  assert (Hq : 0 < rin * rout / (rin + (x - x * f)))
    by (apply Rdiv_lt_0_compat; lra).
  split; [|lra].
  replace (rout - rin * rout / (rin + (x - x * f)))
    with (rout * (x * (1 - f)) / (rin + (x - x * f))) by (field; lra).
  apply Rdiv_lt_0_compat; [apply Rmult_lt_0_compat|]; lra.
Qed.

(** What a returned [executeSwap] did: the simulation was accepted and the
    reserves were moved by the amounts it holds. *)
Lemma executeSwap_returned a tk minOut now p r p' :
  executeSwap a tk minOut now p = (Returned r, p') ->
  fst (simulateSwap a tk p) = Returned r /\
  minOut <= SwapResult.amountOut r /\
  p' = match tk with
       | A => mk (tokenAReserve p + (a - SwapResult.fee r))
                 (tokenBReserve p - SwapResult.amountOut r)
                 (lpTokenSupply p) (fee p) now
       | B => mk (tokenAReserve p - SwapResult.amountOut r)
                 (tokenBReserve p + (a - SwapResult.fee r))
                 (lpTokenSupply p) (fee p) now
       end.
Proof.
  unfold executeSwap, bind. rewrite simulateSwap_split.
  destruct (fst (simulateSwap a tk p)) as [r0|e]; [|discriminate].
  case_decide; [discriminate|].
  destruct tk; unfold assign, ret; simpl; intros [= <- <-];
    repeat split; lra.
Qed.

(** Swaps with no floor on the output go through on a healthy pool. *)
Lemma executeSwap_total a tk minOut now p :
  0 < tokenAReserve p -> 0 < tokenBReserve p -> 0 <= fee p < 1 ->
  0 < a -> minOut <= 0 ->
  exists r p', executeSwap a tk minOut now p = (Returned r, p').
Proof.
  intros HA HB Hf Ha Hm.
  destruct (simulateSwap_total a tk p Ha) as [r Hr].
  pose proof (simulateSwap_returned _ _ _ _ Hr) as (_ & _ & _ & Hout).
  unfold executeSwap, bind. rewrite simulateSwap_split, Hr.
  assert (0 < SwapResult.amountOut r).
  { rewrite Hout. destruct tk.
    - apply (amountOut_bounds (tokenAReserve p) (tokenBReserve p)); lra.
    - rewrite (Rmult_comm (tokenAReserve p)).
      apply (amountOut_bounds (tokenBReserve p) (tokenAReserve p)); lra. }
  case_decide; [lra|].
  destruct tk; unfold assign, ret; simpl; eauto.
Qed.

Lemma sqrt_150000000_bounds : 12247.4 < sqrt 150000000 < 12247.5.
Proof.
  split.
  - rewrite <- (sqrt_square 12247.4) by lra.
    apply sqrt_lt_1_alt. lra.
  - rewrite <- (sqrt_square 12247.5) by lra.
    apply sqrt_lt_1_alt. lra.
Qed.

Lemma example_pool_eq :
  example_pool = mk 10000 15000 (sqrt 150000000 - 1000) 0.003 0.
Proof.
  unfold example_pool, constructor. run_method.
  replace (10000 * 15000) with 150000000 by lra.
  pose proof sqrt_150000000_bounds.
  unfold MINIMUM_LIQUIDITY.
  repeat (case_decide; try lra). reflexivity.
Qed.

(** The swap scenario of the specification: 100 A into the pool
    (10000, 15000) at a fee of 0.003 pays a fee of 0.3 and gives out
    15000 - 150000000 / 10099.7, a little over 148. *)
Lemma simulateSwap_example :
  exists r,
    fst (simulateSwap 100 A example_pool) = Returned r /\
    SwapResult.fee r = 0.3 /\
    SwapResult.amountOut r = 15000 - 150000000 / 10099.7 /\
    148.07 < SwapResult.amountOut r < 148.08.
Proof.
  destruct (simulateSwap_total 100 A example_pool) as [r Hr]; [lra|].
  exists r. split; [exact Hr|].
  apply simulateSwap_returned in Hr as (_ & _ & Hfee & Hout).
  rewrite example_pool_eq in *; simpl in *.
  replace (10000 + (100 - 100 * 0.003)) with 10099.7 in Hout by lra.
  rewrite Hfee, Hout. repeat split; lra.
Qed.

Lemma getPrice_nonzero p :
  tokenAReserve p <> 0 ->
  getPrice p = (Returned (tokenBReserve p / tokenAReserve p), p).
Proof. intros H. run_method. case_decide; [contradiction|reflexivity]. Qed.

(** C1, as the code has it.  A returned [executeSwap] leaves the product of
    the reserves exactly where it was, for a positive fee as for a fee of
    zero: the fee is taken off the input before the input reaches the
    reserve, and the output reserve becomes [k / newReserveIn].  The only
    requirement is that [newReserveIn], the divisor, is not zero, which is
    the case for positive reserves, [amountIn > 0] and a fee in [0,1]. *)
Theorem executeSwap_preserves_product a tk minOut now p r p' :
  executeSwap a tk minOut now p = (Returned r, p') ->
  match tk with A => tokenAReserve p | B => tokenBReserve p end
    + (a - a * fee p) <> 0 ->
  tokenAReserve p' * tokenBReserve p' = tokenAReserve p * tokenBReserve p.
Proof.
  intros Hex Hnz.
  apply executeSwap_returned in Hex as (Hsim & _ & ->).
  apply simulateSwap_returned in Hsim as (_ & _ & Hfee & Hout).
  destruct tk; simpl; rewrite Hout, Hfee; field; exact Hnz.
Qed.

Lemma executeSwap_preserves_product_witness :
  exists r p',
    executeSwap 100 A 0 0 example_pool = (Returned r, p') /\
    tokenAReserve p' * tokenBReserve p'
    = tokenAReserve example_pool * tokenBReserve example_pool.
Proof.
  destruct (executeSwap_total 100 A 0 0 example_pool) as (r & p' & H);
    [try rewrite example_pool_eq; simpl; lra ..|].
  exists r, p'. split; [exact H|].
  apply (executeSwap_preserves_product 100 A 0 0 example_pool r p' H).
  rewrite example_pool_eq; simpl; lra.
Defined.

(** C1, as the specification words it, fails: on the documented pool
    (10000, 15000, fee 0.003) a swap of 100 A goes through, the fee is
    positive, and the product of the reserves has not grown. *)
Lemma executeSwap_product_not_strict :
  exists r p',
    executeSwap 100 A 0 0 example_pool = (Returned r, p') /\
    0 < tokenAReserve example_pool /\ 0 < tokenBReserve example_pool /\
    fee example_pool > 0 /\
    ~ (tokenAReserve p' * tokenBReserve p'
       > tokenAReserve example_pool * tokenBReserve example_pool).
Proof.
  destruct (executeSwap_total 100 A 0 0 example_pool) as (r & p' & H);
    [try rewrite example_pool_eq; simpl; lra ..|].
  exists r, p'. split; [exact H|].
  apply executeSwap_returned in H as (Hsim & _ & ->).
  apply simulateSwap_returned in Hsim as (_ & _ & Hfee & Hout).
  rewrite example_pool_eq in *. simpl in *.
  repeat split; try lra.
  rewrite Hout, Hfee.
  replace (10000 + (100 - 100 * 0.003)) with 10099.7 by lra.
  lra.
Qed.

(** C5.  [executeSwap] runs [simulateSwap] first.  When the simulated
    output is below [minAmountOut] the call throws the slippage error and the
    whole pool (reserves, LP supply, fee, timestamp) is as before; otherwise
    it returns the simulated result itself, and has added the input net of
    the fee to one reserve and taken the output off the other. *)
Theorem executeSwap_slippage_gate a tk minOut now p r :
  fst (simulateSwap a tk p) = Returned r ->
  (SwapResult.amountOut r < minOut ->
     executeSwap a tk minOut now p
     = (Thrown (SlippageExceeded minOut (SwapResult.amountOut r)), p))
  /\ (SwapResult.amountOut r >= minOut ->
     executeSwap a tk minOut now p
     = (Returned r,
        match tk with
        | A => mk (tokenAReserve p + (a - SwapResult.fee r))
                  (tokenBReserve p - SwapResult.amountOut r)
                  (lpTokenSupply p) (fee p) now
        | B => mk (tokenAReserve p - SwapResult.amountOut r)
                  (tokenBReserve p + (a - SwapResult.fee r))
                  (lpTokenSupply p) (fee p) now
        end)).
Proof.
  intros Hsim. unfold executeSwap, bind.
  rewrite simulateSwap_split, Hsim.
  split; intros H; case_decide; try lra.
  - reflexivity.
  - destruct tk; reflexivity.
Qed.

Lemma executeSwap_slippage_gate_witness :
  exists r,
    fst (simulateSwap 100 A example_pool) = Returned r /\
    executeSwap 100 A 149 7 example_pool
    = (Thrown (SlippageExceeded 149 (SwapResult.amountOut r)), example_pool)
    /\ executeSwap 100 A 145 7 example_pool
       = (Returned r,
          mk (10000 + (100 - SwapResult.fee r))
             (15000 - SwapResult.amountOut r)
             (sqrt 150000000 - 1000) 0.003 7).
Proof.
  destruct (simulateSwap_total 100 A example_pool) as [r Hr]; [lra|].
  exists r. split; [exact Hr|].
  pose proof (simulateSwap_returned _ _ _ _ Hr) as (_ & _ & _ & Hout).
  rewrite example_pool_eq in Hout; simpl in Hout.
  replace (10000 + (100 - 100 * 0.003)) with 10099.7 in Hout by lra.
  split.
  - apply (executeSwap_slippage_gate 100 A 149 7 example_pool r Hr).
    rewrite Hout. lra.
  - replace (mk (10000 + (100 - SwapResult.fee r))
               (15000 - SwapResult.amountOut r)
               (sqrt 150000000 - 1000) 0.003 7)
      with (mk (tokenAReserve example_pool + (100 - SwapResult.fee r))
               (tokenBReserve example_pool - SwapResult.amountOut r)
               (lpTokenSupply example_pool) (fee example_pool) 7)
      by (rewrite example_pool_eq; reflexivity).
    apply (executeSwap_slippage_gate 100 A 145 7 example_pool r Hr).
    rewrite Hout. lra.
Defined.

(** C8.  On a pool with positive reserves and a fee in [0,1), for every
    [x > 0]: [getAmountOut(x, 'A')] returns an output [y] with
    [0 < y < tokenBReserve], and [getAmountIn(y, 'B')] returns [x] again.
    Neither call changes the pool.  The bound on [y] is a consequence, not
    an assumption: no [x] is too large. *)
Theorem getAmountIn_getAmountOut p x :
  0 < tokenAReserve p -> 0 < tokenBReserve p -> 0 <= fee p < 1 -> 0 < x ->
  exists y,
    getAmountOut x A p = (Returned y, p) /\
    0 < y < tokenBReserve p /\
    getAmountIn y B p = (Returned x, p).
Proof.
  intros HA HB Hf Hx.
  pose proof (amountOut_bounds _ _ _ _ HA HB Hf Hx) as Hy.
  assert (Hd : 0 < tokenAReserve p + (x - x * fee p)).
  { assert (0 < x * (1 - fee p)) by (apply Rmult_lt_0_compat; lra). lra. }
  remember (tokenBReserve p
            - tokenAReserve p * tokenBReserve p
              / (tokenAReserve p + (x - x * fee p))) as y eqn:Ey.
  exists y. split; [|split; [exact Hy|]].
  - run_method. case_decide; [lra|]. simpl. rewrite Ey. reflexivity.
  - run_method. do 2 (case_decide; [lra|]).
    f_equal. f_equal. rewrite Ey. field.
    assert (0 < tokenAReserve p * tokenBReserve p)
      by (apply Rmult_lt_0_compat; lra).
    repeat split; lra.
Qed.

Lemma getAmountIn_getAmountOut_witness :
  exists y,
    getAmountOut 100 A example_pool = (Returned y, example_pool) /\
    0 < y < tokenBReserve example_pool /\
    getAmountIn y B example_pool = (Returned 100, example_pool).
Proof.
  apply (getAmountIn_getAmountOut example_pool 100);
    try rewrite example_pool_eq; simpl; lra.
Defined.

(** C9.  For [0 < lpTokens < lpTokenSupply] on a pool with
    [tokenAReserve > 0], [removeLiquidity] returns, pays out the share
    [lpTokens / lpTokenSupply] of each reserve, takes [lpTokens] off the
    supply, scales both reserves by [1 - lpTokens / lpTokenSupply], and
    [getPrice] gives afterwards what it gave before. *)
Theorem removeLiquidity_keeps_price lp now p :
  tokenAReserve p > 0 -> 0 < lp < lpTokenSupply p ->
  exists res p',
    removeLiquidity lp now p = (Returned res, p') /\
    RemoveLiquidityResult.lpTokensBurned res = lp /\
    RemoveLiquidityResult.tokenAReceived res
      = tokenAReserve p * (lp / lpTokenSupply p) /\
    RemoveLiquidityResult.tokenBReceived res
      = tokenBReserve p * (lp / lpTokenSupply p) /\
    lpTokenSupply p' = lpTokenSupply p - lp /\
    tokenAReserve p' = tokenAReserve p * (1 - lp / lpTokenSupply p) /\
    tokenBReserve p' = tokenBReserve p * (1 - lp / lpTokenSupply p) /\
    fst (getPrice p') = Returned (tokenBReserve p / tokenAReserve p) /\
    fst (getPrice p') = fst (getPrice p).
Proof.
  intros HA Hlp.
  assert (Hs : 0 < lp / lpTokenSupply p < 1).
  { split; [apply Rdiv_lt_0_compat; lra|].
    apply Rmult_lt_reg_r with (lpTokenSupply p); [lra|].
    unfold Rdiv. rewrite Rmult_assoc, Rinv_l; lra. }
  remember (lp / lpTokenSupply p) as s eqn:Es.
  assert (HA' : tokenAReserve p - tokenAReserve p * s <> 0).
  { assert (0 < tokenAReserve p * (1 - s))
      by (apply Rmult_lt_0_compat; lra). lra. }
  unfold removeLiquidity, bind, this, assign, ret, throw; simpl.
  case_decide; [lra|]. rewrite <- Es.
  do 2 eexists. split; [reflexivity|]. simpl.
  repeat split; try lra.
  - rewrite getPrice_nonzero by exact HA'. simpl. f_equal. field. lra.
  - rewrite !getPrice_nonzero by (simpl; lra). simpl. f_equal. field. lra.
Qed.

Lemma removeLiquidity_keeps_price_witness :
  exists res p',
    removeLiquidity 500 0 example_pool = (Returned res, p') /\
    RemoveLiquidityResult.lpTokensBurned res = 500 /\
    RemoveLiquidityResult.tokenAReceived res
      = tokenAReserve example_pool * (500 / lpTokenSupply example_pool) /\
    RemoveLiquidityResult.tokenBReceived res
      = tokenBReserve example_pool * (500 / lpTokenSupply example_pool) /\
    lpTokenSupply p' = lpTokenSupply example_pool - 500 /\
    tokenAReserve p'
      = tokenAReserve example_pool * (1 - 500 / lpTokenSupply example_pool) /\
    tokenBReserve p'
      = tokenBReserve example_pool * (1 - 500 / lpTokenSupply example_pool) /\
    fst (getPrice p')
      = Returned (tokenBReserve example_pool / tokenAReserve example_pool) /\
    fst (getPrice p') = fst (getPrice example_pool).
Proof.
  apply (removeLiquidity_keeps_price 500 0 example_pool);
    rewrite example_pool_eq; simpl;
    pose proof sqrt_150000000_bounds; lra.
Defined.

(** C6, with the figure of the example put right.  [initialize(a, b)] throws
    exactly when the LP supply is already positive, or [a <= 0], or [b <= 0],
    or [sqrt(a*b) < MINIMUM_LIQUIDITY = 1000], and a throw leaves the pool
    as it was; otherwise it returns, and the LP tokens granted and the
    resulting supply are both [sqrt(a*b) - 1000].  On a fresh pool
    [initialize(10000, 15000)] gives the price 1.5 and the LP supply
    [sqrt(150,000,000) - 1000], which lies between 11,247.4 and 11,247.5. *)
Theorem initialize_spec a b now p :
  ((exists e, initialize a b now p = (Thrown e, p)) <->
   (lpTokenSupply p > 0 \/ a <= 0 \/ b <= 0 \/ sqrt (a * b) < 1000))
  /\ (~ (lpTokenSupply p > 0 \/ a <= 0 \/ b <= 0 \/ sqrt (a * b) < 1000) ->
      initialize a b now p
      = (Returned (AddLiquidityResult.mk (sqrt (a * b) - 1000) a b 1),
         mk a b (sqrt (a * b) - 1000) (fee p) now))
  /\ (fst (getPrice example_pool) = Returned 1.5 /\
      lpTokenSupply example_pool = sqrt 150000000 - 1000 /\
      11247.4 < lpTokenSupply example_pool < 11247.5).
Proof.
  split; [|split].
  - unfold initialize, bind, this, assign, ret, throw, MINIMUM_LIQUIDITY;
      simpl.
    repeat case_decide; split;
      first [ tauto | intros [e He]; discriminate He | intros _; eauto ].
  - intros Hok.
    unfold initialize, bind, this, assign, ret, throw, MINIMUM_LIQUIDITY;
      simpl.
    repeat case_decide; first [ reflexivity | tauto ].
  - pose proof sqrt_150000000_bounds.
    rewrite getPrice_nonzero by (rewrite example_pool_eq; simpl; lra).
    rewrite example_pool_eq; simpl.
    repeat split; try lra. f_equal. lra.
Qed.

Lemma initialize_spec_witness :
  initialize 10000 15000 0 (constructor 0.003 0)
  = (Returned (AddLiquidityResult.mk (sqrt (10000 * 15000) - 1000)
                 10000 15000 1),
     mk 10000 15000 (sqrt (10000 * 15000) - 1000) 0.003 0).
Proof.
  apply (initialize_spec 10000 15000 0 (constructor 0.003 0)).
  simpl. replace (10000 * 15000) with 150000000 by lra.
  pose proof sqrt_150000000_bounds. lra.
Defined.

(** C6, as the specification words it, fails in its figure: the LP supply
    after [initialize(10000, 15000)] is more than one half away from
    11,246.9. *)
Lemma initialize_example_not_11246_9 :
  lpTokenSupply example_pool = sqrt (10000 * 15000) - MINIMUM_LIQUIDITY /\
  ~ (Rabs (lpTokenSupply example_pool - 11246.9) <= 0.5).
Proof.
  pose proof sqrt_150000000_bounds.
  rewrite example_pool_eq; simpl. unfold MINIMUM_LIQUIDITY.
  replace (10000 * 15000) with 150000000 by lra.
  split; [reflexivity|].
  rewrite Rabs_right by lra. lra.
Qed.

End LiquidityPoolFacts.

(** ** The inventory ledger *)

Section InventoryControllerFacts.
Import InventoryController.

Lemma updateAvgEntryPrice_currentInventory price size side c :
  currentInventory (updateAvgEntryPrice price size side c)
  = currentInventory c.
Proof. unfold updateAvgEntryPrice. destruct side; case_decide; reflexivity. Qed.

Lemma updateAvgEntryPrice_config price size side c :
  config (updateAvgEntryPrice price size side c) = config c.
Proof. unfold updateAvgEntryPrice. destruct side; case_decide; reflexivity. Qed.

(** The limits only touch [currentInventory]. *)
Lemma enforceInventoryLimits_avgEntryPrice prev c :
  avgEntryPrice (fst (enforceInventoryLimits prev c)) = avgEntryPrice c.
Proof. unfold enforceInventoryLimits. repeat case_decide; reflexivity. Qed.

(** The inventory after [updateInventory], spelled out. *)
Lemma updateInventory_currentInventory trade c :
  let hi := InventoryConfig.maxInventory (config c) in
  let lo := InventoryConfig.minInventory (config c) in
  config (fst (updateInventory trade c)) = config c /\
  currentInventory (fst (updateInventory trade c))
  = if decide (moved trade c > hi) then hi
    else if decide (moved trade c < lo) then lo
    else moved trade c.
Proof.
  unfold updateInventory, enforceInventoryLimits, moved.
  destruct (Trade.side trade); simpl;
    repeat (case_decide; simpl);
    rewrite ?updateAvgEntryPrice_currentInventory,
            ?updateAvgEntryPrice_config in *;
    simpl in *; try (split; reflexivity); try lra.
Qed.

(** The average entry price after [updateInventory], spelled out: the
    inventory tested and divided by is the moved one, before any limit. *)
Lemma updateInventory_avgEntryPrice trade c :
  avgEntryPrice (fst (updateInventory trade c))
  = match Trade.side trade with
    | buy =>
        if decide (moved trade c > 0)
        then (avgEntryPrice c * currentInventory c
              + Trade.price trade * Trade.size trade) / moved trade c
        else avgEntryPrice c
    | sell =>
        if decide (moved trade c < 0)
        then (avgEntryPrice c * Rabs (currentInventory c)
              + Trade.price trade * Trade.size trade) / Rabs (moved trade c)
        else avgEntryPrice c
    end.
Proof.
  unfold updateInventory. rewrite enforceInventoryLimits_avgEntryPrice.
  unfold moved, updateAvgEntryPrice.
  destruct (Trade.side trade); simpl;
    repeat (case_decide; simpl); try reflexivity.
  all: try replace (currentInventory c + Trade.size trade - Trade.size trade)
         with (currentInventory c) by lra.
  all: try replace (currentInventory c - Trade.size trade + Trade.size trade)
         with (currentInventory c) by lra.
  all: reflexivity.
Qed.

(** Where the stored average does follow the magnitudes: every sell, and
    every buy made from a position that is not short. *)
Lemma updateInventory_avgEntryPrice_magnitudes trade c :
  (Trade.side trade = buy -> 0 <= currentInventory c) ->
  avgEntryPrice (fst (updateInventory trade c))
  = if decide ((Trade.side trade = buy /\ moved trade c > 0)
               \/ (Trade.side trade = sell /\ moved trade c < 0))
    then (avgEntryPrice c * Rabs (currentInventory c)
          + Trade.price trade * Trade.size trade) / Rabs (moved trade c)
    else avgEntryPrice c.
Proof.
  intros Hlong. rewrite updateInventory_avgEntryPrice.
  destruct (Trade.side trade) eqn:Es; repeat case_decide;
    try reflexivity; try (exfalso; intuition (congruence || lra)).
  rewrite (Rabs_right (currentInventory c)) by (specialize (Hlong eq_refl); lra).
  rewrite (Rabs_right (moved trade c)) by lra. reflexivity.
Qed.

(** C2.  With [minInventory <= maxInventory], whatever the trade, the
    inventory after [updateInventory] lies within the two limits (which the
    call does not change); it is the moved inventory capped at the limit it
    went past, and the call returns, with a warning for the caller when it
    capped. *)
Theorem updateInventory_within_limits trade c :
  InventoryConfig.minInventory (config c)
    <= InventoryConfig.maxInventory (config c) ->
  let c' := fst (updateInventory trade c) in
  config c' = config c /\
  InventoryConfig.minInventory (config c') <= currentInventory c'
    <= InventoryConfig.maxInventory (config c') /\
  currentInventory c'
  = Rmax (InventoryConfig.minInventory (config c))
         (Rmin (InventoryConfig.maxInventory (config c)) (moved trade c)) /\
  (snd (updateInventory trade c) <> [] <->
   moved trade c > InventoryConfig.maxInventory (config c)
   \/ moved trade c < InventoryConfig.minInventory (config c)).
Proof.
  intros Hcfg c'.
  destruct (updateInventory_currentInventory trade c) as [Hc Hi].
  fold c' in Hc, Hi. rewrite Hc, Hi.
  split; [reflexivity|].
  split; [|split].
  - repeat case_decide; lra.
  - unfold Rmax, Rmin.
    repeat case_decide; repeat destruct (Rle_dec _ _); lra.
  - unfold updateInventory, enforceInventoryLimits.
    fold (moved trade c).
    assert (Hm : currentInventory
                   (match Trade.side trade with
                    | buy =>
                        updateAvgEntryPrice (Trade.price trade)
                          (Trade.size trade) buy
                          (set_currentInventory
                             (currentInventory c + Trade.size trade) c)
                    | sell =>
                        updateAvgEntryPrice (Trade.price trade)
                          (Trade.size trade) sell
                          (set_currentInventory
                             (currentInventory c - Trade.size trade) c)
                    end) = moved trade c).
    { unfold moved. destruct (Trade.side trade);
        rewrite updateAvgEntryPrice_currentInventory; reflexivity. }
    assert (Hk : config
                   (match Trade.side trade with
                    | buy =>
                        updateAvgEntryPrice (Trade.price trade)
                          (Trade.size trade) buy
                          (set_currentInventory
                             (currentInventory c + Trade.size trade) c)
                    | sell =>
                        updateAvgEntryPrice (Trade.price trade)
                          (Trade.size trade) sell
                          (set_currentInventory
                             (currentInventory c - Trade.size trade) c)
                    end) = config c).
    { destruct (Trade.side trade);
        rewrite updateAvgEntryPrice_config; reflexivity. }
    simpl.
    repeat (case_decide; simpl in * ); rewrite ?Hm, ?Hk in *;
      split; intros; try congruence; try lra; try tauto.
Qed.

Lemma updateInventory_within_limits_witness :
  let c := constructor DEFAULT_INVENTORY_CONFIG in
  let trade := Trade.mk "t1" buy 12 1200 0 0 in
  let c' := fst (updateInventory trade c) in
  config c' = config c /\
  InventoryConfig.minInventory (config c') <= currentInventory c'
    <= InventoryConfig.maxInventory (config c') /\
  currentInventory c'
  = Rmax (InventoryConfig.minInventory (config c))
         (Rmin (InventoryConfig.maxInventory (config c)) (moved trade c)) /\
  (snd (updateInventory trade c) <> [] <->
   moved trade c > InventoryConfig.maxInventory (config c)
   \/ moved trade c < InventoryConfig.minInventory (config c)).
Proof.
  apply (updateInventory_within_limits
           (Trade.mk "t1" buy 12 1200 0 0)
           (constructor DEFAULT_INVENTORY_CONFIG)).
  simpl. lra.
Defined.

(** The scenario of the specification: limits of -1000 and 1000, a buy of
    1200 from a flat position ends at 1000 and warns. *)
Lemma updateInventory_buy_1200 :
  let c := constructor DEFAULT_INVENTORY_CONFIG in
  let res := updateInventory (Trade.mk "t1" buy 12 1200 0 0) c in
  currentInventory (fst res) = 1000 /\ snd res = [ExceededMax 1200 1000].
Proof.
  unfold updateInventory, enforceInventoryLimits, updateAvgEntryPrice; simpl.
  repeat (case_decide; simpl in * ); try lra; try lia.
  split; [reflexivity|]. do 2 f_equal. lra.
Qed.

(** C7 at the input where the code leaves it.  From a fresh controller a
    sell of 50 at 10 makes the position -50 with an average of 10; a buy of
    100 at 12 then makes it 50.  The buy branch multiplies the old average
    by the signed pre-trade inventory (-50), not by its magnitude as the sell
    branch does, and stores (10 * -50 + 12 * 100) / 50 = 14 where the
    size-weighted average with magnitudes is (10 * 50 + 12 * 100) / 50 = 34. *)
Theorem updateInventory_buy_through_zero :
  let c0 := constructor DEFAULT_INVENTORY_CONFIG in
  let c1 := fst (updateInventory (Trade.mk "t1" sell 10 50 0 0) c0) in
  let c2 := fst (updateInventory (Trade.mk "t2" buy 12 100 1 0) c1) in
  currentInventory c1 = -50 /\ avgEntryPrice c1 = 10 /\
  currentInventory c2 = 50 /\ avgEntryPrice c2 = 14 /\
  (avgEntryPrice c1 * Rabs (currentInventory c1) + 12 * 100)
    / Rabs (currentInventory c2) = 34.
Proof.
  intros c0 c1 c2.
  assert (H1 : currentInventory c1 = -50).
  { unfold c1. destruct (updateInventory_currentInventory
                           (Trade.mk "t1" sell 10 50 0 0) c0) as [_ ->].
    unfold moved; simpl. repeat case_decide; lra. }
  assert (H2 : avgEntryPrice c1 = 10).
  { unfold c1. rewrite updateInventory_avgEntryPrice. unfold moved; simpl.
    case_decide; [|lra].
    replace (0 - 50) with (-50) by lra.
    rewrite Rabs_R0, (Rabs_left (-50)) by lra.
    replace (- (-50)) with 50 by lra. lra. }
  assert (Hk : config c1 = DEFAULT_INVENTORY_CONFIG).
  { unfold c1. destruct (updateInventory_currentInventory
                           (Trade.mk "t1" sell 10 50 0 0) c0) as [-> _].
    reflexivity. }
  assert (H3 : currentInventory c2 = 50).
  { unfold c2. destruct (updateInventory_currentInventory
                           (Trade.mk "t2" buy 12 100 1 0) c1) as [_ ->].
    unfold moved; simpl. rewrite Hk, H1; simpl. repeat case_decide; lra. }
  assert (H4 : avgEntryPrice c2 = 14).
  { unfold c2. rewrite updateInventory_avgEntryPrice. unfold moved; simpl.
    rewrite H1, H2. case_decide; lra. }
  repeat split; try assumption.
  rewrite H1, H2, H3. rewrite (Rabs_left (-50)), (Rabs_right 50) by lra.
  replace (- (-50)) with 50 by lra. lra.
Qed.

End InventoryControllerFacts.

(** ** The spread model *)

Section SpreadCalculatorFacts.
Import SpreadCalculator.

(** The clamp keeps the pre-skew total within the configured band. *)
Lemma totalSpread_bounds c md :
  SpreadConfig.minSpread (config c) <= SpreadConfig.maxSpread (config c) ->
  SpreadConfig.minSpread (config c) <= totalSpread c md
    <= SpreadConfig.maxSpread (config c).
Proof.
  intros Hcfg. unfold totalSpread.
  set (x := calculateBaseSpread c md
            + calculateVolatilityAdjustment c (MarketData.volatility md)).
  pose proof (Rmax_r x (SpreadConfig.minSpread (config c))).
  pose proof (Rmin_r (Rmax x (SpreadConfig.minSpread (config c)))
                (SpreadConfig.maxSpread (config c))).
  split; [|assumption].
  apply Rmin_glb; assumption.
Qed.

(** The pre-skew total reaches [maxSpread] as soon as the volatility
    adjustment alone does and the base spread is not negative. *)
Lemma totalSpread_saturated c md :
  0 <= SpreadConfig.baseSpread (config c) ->
  SpreadConfig.maxSpread (config c)
    <= calculateVolatilityAdjustment c (MarketData.volatility md) ->
  totalSpread c md = SpreadConfig.maxSpread (config c).
Proof.
  intros Hb Hv. unfold totalSpread.
  apply Rmin_right.
  eapply Rle_trans; [|apply Rmax_l].
  assert (0 <= calculateBaseSpread c md); [|lra].
  unfold calculateBaseSpread.
  apply Rmult_le_pos; [assumption|].
  eapply Rle_trans; [|apply Rmax_l]. lra.
Qed.

Lemma calculateOptimalSpread_eq c md st :
  calculateOptimalSpread c md st
  = mkSpreads
      (Rmax (totalSpread c md / 2 * (1 + calculateInventorySkew c st))
            (SpreadConfig.minSpread (config c) / 2))
      (Rmax (totalSpread c md / 2 * (1 - calculateInventorySkew c st))
            (SpreadConfig.minSpread (config c) / 2)).
Proof. reflexivity. Qed.

(** C3, with the two conditions on the configuration it needs.  For a
    configuration with [0 < minSpread <= maxSpread] and a positive
    [inventorySkewMultiplier], and for every market data and inventory
    state: a ratio above 0.5 gives [bidSpread > askSpread], a ratio below 0.5
    gives [askSpread > bidSpread], and a ratio of 0.5 gives equal spreads. *)
Theorem calculateOptimalSpread_skew_sign c md st :
  0 < SpreadConfig.minSpread (config c) ->
  SpreadConfig.minSpread (config c) <= SpreadConfig.maxSpread (config c) ->
  0 < SpreadConfig.inventorySkewMultiplier (config c) ->
  let q := calculateOptimalSpread c md st in
  (InventoryState.inventoryRatio st > 0.5 -> bidSpread q > askSpread q) /\
  (InventoryState.inventoryRatio st < 0.5 -> askSpread q > bidSpread q) /\
  (InventoryState.inventoryRatio st = 0.5 -> bidSpread q = askSpread q).
Proof.
  intros Hmin Hcfg Hmu q. unfold q. rewrite calculateOptimalSpread_eq. simpl.
  pose proof (totalSpread_bounds c md Hcfg) as [HT _].
  unfold calculateInventorySkew.
  set (T := totalSpread c md) in *.
  set (m := SpreadConfig.minSpread (config c)) in *.
  set (mu := SpreadConfig.inventorySkewMultiplier (config c)) in *.
  set (d := InventoryState.inventoryRatio st - 0.5).
  assert (Hd : InventoryState.inventoryRatio st = d + 0.5)
    by (unfold d; lra).
  rewrite Hd. clearbody T m mu d.
  repeat split; intros Hr.
  - assert (0 < d * mu) by (apply Rmult_lt_0_compat; lra).
    assert (0 < T / 2 * (d * mu * 2)) by (apply Rmult_lt_0_compat; lra).
    unfold Rmax. repeat destruct (Rle_dec _ _); lra.
  - assert (0 < (- d) * mu) by (apply Rmult_lt_0_compat; lra).
    assert (0 < T / 2 * (- d * mu * 2)) by (apply Rmult_lt_0_compat; lra).
    unfold Rmax. repeat destruct (Rle_dec _ _); lra.
  - assert (d = 0) as -> by lra.
    f_equal. lra.
Qed.

Lemma calculateOptimalSpread_skew_sign_witness :
  let c := constructor DEFAULT_SPREAD_CONFIG in
  let md := MarketData.mk "TOKEN/USDC" 1.5 1.49 1.51 1000000 1.6 1.4 0.05 in
  let q st := calculateOptimalSpread c md st in
  let st r := InventoryState.mk 0 0 r 0 1000 (-1000) in
  bidSpread (q (st 0.75)) > askSpread (q (st 0.75)) /\
  askSpread (q (st 0.25)) > bidSpread (q (st 0.25)) /\
  bidSpread (q (st 0.5)) = askSpread (q (st 0.5)).
Proof.
  intros c md q st.
  assert (H : forall r,
    (r > 0.5 -> bidSpread (q (st r)) > askSpread (q (st r))) /\
    (r < 0.5 -> askSpread (q (st r)) > bidSpread (q (st r))) /\
    (r = 0.5 -> bidSpread (q (st r)) = askSpread (q (st r)))).
  { intros r. apply (calculateOptimalSpread_skew_sign c md (st r));
      simpl; lra. }
  repeat split.
  - apply (H 0.75). lra.
  - apply (H 0.25). lra.
  - apply (H 0.5). reflexivity.
Defined.

(** C3, as the specification words it, fails.  With
    [inventorySkewMultiplier = 0] the two spreads are equal at a ratio of
    0.75; and with [maxSpread < minSpread] both spreads sit on the floor
    [minSpread / 2], again equal at a ratio of 0.75, although
    [minSpread > 0] in both configurations. *)
Lemma calculateOptimalSpread_skew_sign_fails :
  let md := MarketData.mk "TOKEN/USDC" 1.5 1.49 1.51 1000000 1.6 1.4 0.05 in
  let st := InventoryState.mk 500 0 0.75 0 1000 (-1000) in
  let c1 := constructor (SpreadConfig.mk 0.002 0.0005 0.02 2.0 0) in
  let c2 := constructor (SpreadConfig.mk 0.002 0.02 0.001 2.0 0.5) in
  InventoryState.inventoryRatio st > 0.5 /\
  (SpreadConfig.minSpread (config c1) > 0 /\
   ~ bidSpread (calculateOptimalSpread c1 md st)
     > askSpread (calculateOptimalSpread c1 md st)) /\
  (SpreadConfig.minSpread (config c2) > 0 /\
   ~ bidSpread (calculateOptimalSpread c2 md st)
     > askSpread (calculateOptimalSpread c2 md st)).
Proof.
  intros md st c1 c2. split; [simpl; lra|]. split.
  - split; [simpl; lra|].
    rewrite calculateOptimalSpread_eq. simpl.
    unfold calculateInventorySkew. simpl.
    replace (1 + (0.75 - 0.5) * 0 * 2) with (1 - (0.75 - 0.5) * 0 * 2) by lra.
    lra.
  - split; [simpl; lra|].
    rewrite calculateOptimalSpread_eq. simpl.
    unfold calculateInventorySkew. simpl.
    assert (HT : totalSpread c2 md = 0.001).
    { unfold totalSpread. simpl. apply Rmin_right.
      eapply Rle_trans; [|apply Rmax_r]. lra. }
    rewrite HT.
    unfold Rmax. repeat destruct (Rle_dec _ _); lra.
Qed.

(** C4, as the code has it.  For a configuration with
    [0 < minSpread <= maxSpread]: each of [bidSpread] and [askSpread] is at
    least [minSpread / 2]; the pre-skew total spread lies in
    [minSpread, maxSpread]; and when the skew leaves both sides on or above
    the floor, [halfSpread * (1 - |skew|) >= minSpread / 2], the two spreads
    add up to that total and so to at most [maxSpread]. *)
Theorem calculateOptimalSpread_bounds c md st :
  0 < SpreadConfig.minSpread (config c) ->
  SpreadConfig.minSpread (config c) <= SpreadConfig.maxSpread (config c) ->
  let q := calculateOptimalSpread c md st in
  let skew := calculateInventorySkew c st in
  SpreadConfig.minSpread (config c) / 2 <= bidSpread q /\
  SpreadConfig.minSpread (config c) / 2 <= askSpread q /\
  SpreadConfig.minSpread (config c) <= totalSpread c md
    <= SpreadConfig.maxSpread (config c) /\
  (SpreadConfig.minSpread (config c) / 2
     <= totalSpread c md / 2 * (1 - Rabs skew) ->
   bidSpread q + askSpread q = totalSpread c md /\
   bidSpread q + askSpread q <= SpreadConfig.maxSpread (config c)).
Proof.
  intros Hmin Hcfg q skew. unfold q, skew.
  rewrite calculateOptimalSpread_eq. simpl.
  pose proof (totalSpread_bounds c md Hcfg) as HT.
  split; [apply Rmax_r|]. split; [apply Rmax_r|]. split; [exact HT|].
  set (T := totalSpread c md) in *.
  set (m := SpreadConfig.minSpread (config c)) in *.
  set (s := calculateInventorySkew c st).
  clearbody T m s. intros Hfloor.
  assert (Hb : m / 2 <= T / 2 * (1 + s) /\ m / 2 <= T / 2 * (1 - s)).
  { unfold Rabs in Hfloor. destruct (Rcase_abs s); nra. }
  destruct Hb as [Hb Ha].
  rewrite !Rmax_left by assumption. lra.
Qed.

Lemma calculateOptimalSpread_bounds_witness :
  let c := constructor DEFAULT_SPREAD_CONFIG in
  let md := MarketData.mk "TOKEN/USDC" 1.5 1.49 1.51 1000000 1.6 1.4 0.05 in
  let st := InventoryState.mk 500 0 0.75 0 1000 (-1000) in
  let q := calculateOptimalSpread c md st in
  0.0005 / 2 <= bidSpread q /\ 0.0005 / 2 <= askSpread q /\
  0.0005 <= totalSpread c md <= 0.02 /\
  bidSpread q + askSpread q = totalSpread c md /\
  bidSpread q + askSpread q <= 0.02.
Proof.
  intros c md st q.
  assert (HT : totalSpread c md = 0.02).
  { apply totalSpread_saturated; simpl; [lra|].
    unfold calculateVolatilityAdjustment. simpl.
    rewrite Rmax_right by lra. lra. }
  destruct (calculateOptimalSpread_bounds c md st) as (Hb & Ha & Ht & Hsum);
    [simpl; lra .. |].
  repeat split; try assumption; try apply Ht; apply Hsum;
    rewrite HT; unfold calculateInventorySkew; simpl;
    replace ((0.75 - 0.5) * 0.5 * 2) with 0.25 by lra;
    rewrite Rabs_right by lra; lra.
Defined.

(** C4, as the specification words it, fails in its last part.  With an
    [inventorySkewMultiplier] of 1 and a ratio of 1 (a configuration with
    [0 < minSpread <= maxSpread], a ratio within [0,1]) the ask side is
    lifted to the floor and the two spreads add up to
    [maxSpread + minSpread / 2]. *)
Lemma calculateOptimalSpread_sum_exceeds_maxSpread :
  let c := constructor (SpreadConfig.mk 0.002 0.0005 0.02 2.0 1) in
  let md := MarketData.mk "TOKEN/USDC" 1.5 1.49 1.51 1000000 1.6 1.4 0.05 in
  let st := InventoryState.mk 1000 0 1 0 1000 (-1000) in
  let q := calculateOptimalSpread c md st in
  0 < SpreadConfig.minSpread (config c) <= SpreadConfig.maxSpread (config c)
  /\ 0 <= InventoryState.inventoryRatio st <= 1
  /\ bidSpread q + askSpread q = 0.02025
  /\ ~ (bidSpread q + askSpread q <= SpreadConfig.maxSpread (config c)).
Proof.
  intros c md st q.
  assert (HT : totalSpread c md = 0.02).
  { apply totalSpread_saturated; simpl; [lra|].
    unfold calculateVolatilityAdjustment. simpl.
    rewrite Rmax_right by lra. lra. }
  assert (Hq : bidSpread q + askSpread q = 0.02025).
  { unfold q. rewrite calculateOptimalSpread_eq, HT. simpl.
    unfold calculateInventorySkew. simpl.
    replace ((1 - 0.5) * 1 * 2) with 1 by lra.
    rewrite Rmax_left, Rmax_right by lra. lra. }
  rewrite Hq. simpl. repeat split; lra.
Qed.

End SpreadCalculatorFacts.

(** ** The coordinator *)

Section MarketMakerFacts.
Import MarketMaker.

(** C10.  When [orderId] is not a key of the open-order table,
    [processFill] returns [null], warns of nothing, and gives back the
    coordinator it was given: the table and its orders, both trade
    histories, the inventory, [totalVolume] and [realizedPnL] are the same. *)
Theorem processFill_unknown_order orderId filledSize fillPrice
    updatedAt tradeId timestamp (m : t) :
  activeOrders m !! orderId = None ->
  processFill orderId filledSize fillPrice updatedAt tradeId timestamp m
  = (None, [], m).
Proof. intros Hnone. unfold processFill. rewrite Hnone. reflexivity. Qed.

(** A coordinator with two resting orders, "bid-1" and "ask-1". *)
Lemma placeOrders_activeOrders bp bs ap az bidId bidNow askId askNow m :
  activeOrders
    (snd (placeOrders bp bs ap az bidId bidNow askId askNow m))
  = <[askId := createOrder sell ap az askId askNow m]>
      (<[bidId := createOrder buy bp bs bidId bidNow m]> (activeOrders m)).
Proof.
  unfold placeOrders; simpl.
  assert (Hid : forall side price size id now,
             Order.id (createOrder side price size id now m) = id).
  { intros. unfold createOrder. case_match; reflexivity. }
  rewrite !Hid. reflexivity.
Qed.

Lemma processFill_unknown_order_witness :
  let m := snd (placeOrders 1.49 100 1.51 100 "bid-1" 0 "ask-1" 0
                  (constructor DEFAULT_CONFIG 0)) in
  processFill "bid-2" 40 1.5 1 "t1" 1 m = (None, [], m).
Proof.
  intros m.
  apply (processFill_unknown_order "bid-2" 40 1.5 1 "t1" 1 m).
  unfold m. rewrite placeOrders_activeOrders.
  rewrite !lookup_insert_ne by discriminate.
  apply lookup_empty.
Defined.

(** The other branch, for contrast: a fill of a resting order returns a
    trade and appends it to the coordinator's history. *)
Lemma processFill_known_order orderId filledSize fillPrice
    updatedAt tradeId timestamp (m : t) order :
  activeOrders m !! orderId = Some order ->
  exists trade warnings m',
    processFill orderId filledSize fillPrice updatedAt tradeId timestamp m
    = (Some trade, warnings, m') /\
    Trade.side trade = Order.side order /\
    Trade.size trade = filledSize /\ Trade.price trade = fillPrice /\
    tradeHistory m' = tradeHistory m ++ [trade] /\
    totalVolume m' = totalVolume m + filledSize * fillPrice.
Proof.
  intros Hsome. unfold processFill. rewrite Hsome.
  case_decide; simpl;
    destruct (InventoryController.updateInventory _ _) as [ic warnings];
    unfold updateRealizedPnL; simpl; case_decide; simpl;
    do 3 eexists; (split; [reflexivity|]); simpl; repeat split; reflexivity.
Qed.

End MarketMakerFacts.

(** ** More on the liquidity pool *)

Section LiquidityPoolMore.
Import LiquidityPool.

Ltac run_pool :=
  unfold executeSwap, getAmountOut, getAmountIn, simulateSwap, getSpotPrice,
    getPrice, initialize, removeLiquidity, addLiquidity, setFee, reset,
    getLiquidityPosition, calculateOptimalSwapAmount,
    bind, this, ret, throw, assign; simpl.

Lemma simulateSwap_amountOut a tk p r :
  fst (simulateSwap a tk p) = Returned r ->
  SwapResult.amountOut r
  = reserveOut tk p
    - reserveIn tk p * reserveOut tk p / (reserveIn tk p + (a - a * fee p)).
Proof.
  intros H. apply simulateSwap_returned in H as (_ & _ & _ & ->).
  destruct tk; simpl; [reflexivity|].
  rewrite (Rmult_comm (tokenAReserve p)). reflexivity.
Qed.

Lemma newReserveIn_pos a tk p :
  healthy p -> 0 < a -> 0 < reserveIn tk p + (a - a * fee p).
Proof.
  intros (HA & HB & Hf) Ha.
  assert (0 < a * (1 - fee p)) by (apply Rmult_lt_0_compat; lra).
  destruct tk; simpl; lra.
Qed.

Lemma square_grows (u v x : R) :
  0 < u -> 0 < v -> 0 < x -> v * u * u < v * (u + x) * (u + x).
Proof.
  intros Hu Hv Hx.
  assert (0 < v * (x * (2 * u + x)))
    by (repeat apply Rmult_lt_0_compat; lra).
  replace (v * (u + x) * (u + x)) with (v * u * u + v * (x * (2 * u + x)))
    by ring.
  lra.
Qed.

Lemma example_pool_healthy : healthy example_pool.
Proof. unfold healthy. rewrite example_pool_eq; simpl. lra. Qed.

(** X1.  A returned swap on a healthy pool keeps it healthy: the output is
    positive and strictly less than the reserve it comes from, the input
    reserve grows by the input net of the fee, and the LP supply and the fee
    are not touched. *)
Theorem executeSwap_keeps_healthy a tk minOut now p r p' :
  healthy p ->
  executeSwap a tk minOut now p = (Returned r, p') ->
  healthy p' /\
  0 < SwapResult.amountOut r < reserveOut tk p /\
  reserveIn tk p' = reserveIn tk p + a * (1 - fee p) /\
  reserveOut tk p' = reserveOut tk p - SwapResult.amountOut r /\
  lpTokenSupply p' = lpTokenSupply p /\ fee p' = fee p.
Proof.
  intros Hh Hex. pose proof Hh as (HA & HB & Hf).
  apply executeSwap_returned in Hex as (Hsim & _ & ->).
  pose proof (simulateSwap_returned _ _ _ _ Hsim) as (Ha & _ & Hfee & _).
  pose proof (simulateSwap_amountOut _ _ _ _ Hsim) as Hout.
  pose proof (newReserveIn_pos a tk p Hh Ha) as Hd.
  assert (Hb : 0 < SwapResult.amountOut r < reserveOut tk p).
  { rewrite Hout. destruct tk; simpl in *; apply amountOut_bounds; lra. }
  unfold healthy.
  destruct tk; simpl in *; rewrite Hfee; repeat split; lra.
Qed.

Lemma executeSwap_keeps_healthy_witness :
  exists r p',
    executeSwap 100 A 145 1 example_pool = (Returned r, p') /\
    healthy p' /\
    0 < SwapResult.amountOut r < reserveOut A example_pool.
Proof.
  destruct (simulateSwap_total 100 A example_pool) as [r Hr]; [lra|].
  pose proof (simulateSwap_returned _ _ _ _ Hr) as (_ & _ & _ & Hout).
  rewrite example_pool_eq in Hout; simpl in Hout.
  replace (10000 + (100 - 100 * 0.003)) with 10099.7 in Hout by lra.
  assert (Hex : executeSwap 100 A 145 1 example_pool
                = (Returned r,
                   mk (tokenAReserve example_pool + (100 - SwapResult.fee r))
                      (tokenBReserve example_pool - SwapResult.amountOut r)
                      (lpTokenSupply example_pool) (fee example_pool) 1)).
  { unfold executeSwap, bind. rewrite simulateSwap_split, Hr.
    case_decide; [lra|]. reflexivity. }
  do 2 eexists. split; [exact Hex|].
  destruct (executeSwap_keeps_healthy _ _ _ _ _ _ _
              example_pool_healthy Hex) as (H1 & H2 & _).
  split; assumption.
Defined.

(** X2.  The [newPrice] a swap reports is the price the pool has once the
    swap is executed, and the price has moved against the trader: paying A
    in lowers the price of A in B, paying B in raises it. *)
Theorem executeSwap_newPrice a tk minOut now p r p' :
  healthy p ->
  executeSwap a tk minOut now p = (Returned r, p') ->
  getPrice p' = (Returned (SwapResult.newPrice r), p') /\
  match tk with
  | A => SwapResult.newPrice r < tokenBReserve p / tokenAReserve p
  | B => SwapResult.newPrice r > tokenBReserve p / tokenAReserve p
  end.
Proof.
  intros Hh Hex. pose proof Hh as (HA & HB & Hf).
  apply executeSwap_returned in Hex as (Hsim & _ & ->).
  pose proof (simulateSwap_returned _ _ _ _ Hsim) as (Ha & _ & Hfee & Hout).
  pose proof (newReserveIn_pos a tk p Hh Ha) as Hd.
  assert (Hx : 0 < a * (1 - fee p)) by (apply Rmult_lt_0_compat; lra).
  assert (Hk : 0 < tokenAReserve p * tokenBReserve p)
    by (apply Rmult_lt_0_compat; lra).
  assert (Hnp : SwapResult.newPrice r
                = match tk with
                  | A => tokenAReserve p * tokenBReserve p
                         / (tokenAReserve p + (a - a * fee p))
                         / (tokenAReserve p + (a - a * fee p))
                  | B => (tokenBReserve p + (a - a * fee p))
                         / (tokenAReserve p * tokenBReserve p
                            / (tokenBReserve p + (a - a * fee p)))
                  end).
  { revert Hsim. run_pool. case_decide; [lra|].
    destruct tk; simpl; intros [= <-]; reflexivity. }
  destruct tk; simpl in Hd.
  - split.
    + rewrite getPrice_nonzero by (simpl; rewrite Hfee; lra).
      simpl. rewrite Hnp, Hout, Hfee. do 2 f_equal. field. lra.
    + rewrite Hnp.
      apply Rmult_lt_reg_r with (tokenAReserve p + (a - a * fee p)); [lra|].
      apply Rmult_lt_reg_r with (tokenAReserve p + (a - a * fee p)); [lra|].
      apply Rmult_lt_reg_r with (tokenAReserve p); [lra|].
      replace (tokenAReserve p * tokenBReserve p
               / (tokenAReserve p + (a - a * fee p))
               / (tokenAReserve p + (a - a * fee p))
               * (tokenAReserve p + (a - a * fee p))
               * (tokenAReserve p + (a - a * fee p)) * tokenAReserve p)
        with (tokenAReserve p * tokenBReserve p * tokenAReserve p)
        by (field; lra).
      replace (tokenBReserve p / tokenAReserve p
               * (tokenAReserve p + (a - a * fee p))
               * (tokenAReserve p + (a - a * fee p)) * tokenAReserve p)
        with (tokenBReserve p * (tokenAReserve p + (a - a * fee p))
              * (tokenAReserve p + (a - a * fee p)))
        by (field; lra).
      pose proof (square_grows (tokenAReserve p) (tokenBReserve p)
                    (a - a * fee p) HA HB ltac:(lra)).
      lra.
  - assert (HA' : 0 < tokenAReserve p * tokenBReserve p
                     / (tokenBReserve p + (a - a * fee p)))
      by (apply Rdiv_lt_0_compat; lra).
    split.
    + rewrite getPrice_nonzero
        by (simpl; rewrite Hout;
            replace (tokenAReserve p
                     - (tokenAReserve p
                        - tokenAReserve p * tokenBReserve p
                          / (tokenBReserve p + (a - a * fee p))))
              with (tokenAReserve p * tokenBReserve p
                    / (tokenBReserve p + (a - a * fee p))) by lra;
            lra).
      simpl. rewrite Hnp, Hout, Hfee. do 2 f_equal. field. lra.
    + rewrite Hnp.
      apply Rlt_gt.
      apply Rmult_lt_reg_r with (tokenAReserve p); [lra|].
      apply Rmult_lt_reg_r with (tokenAReserve p * tokenBReserve p); [lra|].
      replace (tokenBReserve p / tokenAReserve p * tokenAReserve p
               * (tokenAReserve p * tokenBReserve p))
        with (tokenBReserve p * (tokenAReserve p * tokenBReserve p))
        by (field; lra).
      replace ((tokenBReserve p + (a - a * fee p))
               / (tokenAReserve p * tokenBReserve p
                  / (tokenBReserve p + (a - a * fee p)))
               * tokenAReserve p * (tokenAReserve p * tokenBReserve p))
        with ((tokenBReserve p + (a - a * fee p))
              * (tokenBReserve p + (a - a * fee p)) * tokenAReserve p)
        by (field; lra).
      pose proof (square_grows (tokenBReserve p) (tokenAReserve p)
                    (a - a * fee p) HB HA ltac:(lra)).
      lra.
Qed.

Lemma executeSwap_newPrice_witness :
  exists r p',
    executeSwap 100 A 0 1 example_pool = (Returned r, p') /\
    getPrice p' = (Returned (SwapResult.newPrice r), p') /\
    SwapResult.newPrice r
      < tokenBReserve example_pool / tokenAReserve example_pool.
Proof.
  destruct (executeSwap_total 100 A 0 1 example_pool) as (r & p' & H);
    [try rewrite example_pool_eq; simpl; lra ..|].
  exists r, p'. split; [exact H|].
  exact (executeSwap_newPrice 100 A 0 1 example_pool r p'
           example_pool_healthy H).
Defined.

(** The relative shortfall of the execution price under the spot price, in
    closed form. *)
Lemma impact_closed_form (rin rout f a : R) :
  0 < rin -> 0 < rout -> 0 <= f < 1 -> 0 < a ->
  let out := rout - rin * rout / (rin + (a - a * f)) in
  out / a < rout / rin /\
  Rabs (out / a - rout / rin) / (rout / rin)
  = 1 - (1 - f) * rin / (rin + a * (1 - f)).
Proof.
  intros Hin Hout Hf Ha out.
  assert (Hx : 0 < a * (1 - f)) by (apply Rmult_lt_0_compat; lra).
  assert (Hd : 0 < rin + (a - a * f)) by lra.
  assert (Hs : 0 < rout / rin) by (apply Rdiv_lt_0_compat; lra).
  assert (He : out / a = rout / rin * ((1 - f) * rin / (rin + a * (1 - f)))).
  { unfold out. field. repeat split; lra. }
  assert (Hq : 0 < (1 - f) * rin / (rin + a * (1 - f)) < 1).
  { split.
    - apply Rdiv_lt_0_compat; [apply Rmult_lt_0_compat|]; lra.
    - apply Rmult_lt_reg_r with (rin + a * (1 - f)); [lra|].
      unfold Rdiv. rewrite Rmult_assoc, Rinv_l by lra. nra. }
  set (q := (1 - f) * rin / (rin + a * (1 - f))) in *.
  assert (Hlt : out / a < rout / rin).
  { rewrite He. clearbody q. nra. }
  split; [exact Hlt|].
  rewrite Rabs_left by lra. rewrite He. field. lra.
Qed.

Lemma simulateSwap_priceImpact a tk p r :
  healthy p ->
  fst (simulateSwap a tk p) = Returned r ->
  SwapResult.priceImpact r
  = Rabs (SwapResult.amountOut r / a - reserveOut tk p / reserveIn tk p)
    / (reserveOut tk p / reserveIn tk p).
Proof.
  intros (HA & HB & Hf). run_pool. case_decide; [discriminate|].
  destruct tk; simpl; case_decide; try lra; intros [= <-]; reflexivity.
Qed.

(** X3.  On a healthy pool every simulated swap executes below the spot
    price, and its [priceImpact] lies strictly between the fee and 1: no
    trade, however small, costs less than the fee, and none gets nothing. *)
Theorem simulateSwap_priceImpact_bounds a tk p :
  healthy p -> 0 < a ->
  exists r,
    simulateSwap a tk p = (Returned r, p) /\
    SwapResult.amountOut r / a < reserveOut tk p / reserveIn tk p /\
    SwapResult.priceImpact r
    = 1 - (1 - fee p) * reserveIn tk p / (reserveIn tk p + a * (1 - fee p)) /\
    fee p < SwapResult.priceImpact r < 1.
Proof.
  intros Hh Ha. pose proof Hh as (HA & HB & Hf).
  destruct (simulateSwap_total a tk p Ha) as [r Hr].
  exists r. split; [rewrite simulateSwap_split, Hr; reflexivity|].
  rewrite (simulateSwap_priceImpact a tk p r Hh Hr).
  rewrite (simulateSwap_amountOut a tk p r Hr).
  assert (Hin : 0 < reserveIn tk p) by (destruct tk; simpl; lra).
  assert (Hout : 0 < reserveOut tk p) by (destruct tk; simpl; lra).
  destruct (impact_closed_form _ _ _ _ Hin Hout Hf Ha) as [Hlt Heq].
  split; [exact Hlt|]. split; [exact Heq|]. rewrite Heq.
  assert (Hx : 0 < a * (1 - fee p)) by (apply Rmult_lt_0_compat; lra).
  assert (Hq : 0 < (1 - fee p) * reserveIn tk p
                   / (reserveIn tk p + a * (1 - fee p)) < 1 - fee p).
  { split.
    - apply Rdiv_lt_0_compat; [apply Rmult_lt_0_compat|]; lra.
    - apply Rmult_lt_reg_r with (reserveIn tk p + a * (1 - fee p)); [lra|].
      unfold Rdiv. rewrite Rmult_assoc, Rinv_l by lra. nra. }
  lra.
Qed.

Lemma simulateSwap_priceImpact_bounds_witness :
  exists r,
    simulateSwap 100 A example_pool = (Returned r, example_pool) /\
    SwapResult.amountOut r / 100
      < reserveOut A example_pool / reserveIn A example_pool /\
    SwapResult.priceImpact r
    = 1 - (1 - fee example_pool) * reserveIn A example_pool
          / (reserveIn A example_pool + 100 * (1 - fee example_pool)) /\
    fee example_pool < SwapResult.priceImpact r < 1.
Proof.
  apply (simulateSwap_priceImpact_bounds 100 A example_pool
           example_pool_healthy).
  lra.
Defined.

(** X4.  [estimateSlippage], given the reserves and the fee of a healthy
    pool, is the [priceImpact] that [simulateSwap] reports on that pool. *)
Theorem estimateSlippage_is_priceImpact a tk p r :
  healthy p ->
  fst (simulateSwap a tk p) = Returned r ->
  estimateSlippage a (reserveIn tk p) (reserveOut tk p) (fee p)
  = SwapResult.priceImpact r.
Proof.
  intros Hh Hr. pose proof Hh as (HA & HB & Hf).
  pose proof (simulateSwap_returned _ _ _ _ Hr) as (Ha & _).
  rewrite (simulateSwap_priceImpact a tk p r Hh Hr).
  rewrite (simulateSwap_amountOut a tk p r Hr).
  assert (Hin : 0 < reserveIn tk p) by (destruct tk; simpl; lra).
  assert (Hx : 0 < a * (1 - fee p)) by (apply Rmult_lt_0_compat; lra).
  unfold estimateSlippage. do 3 f_equal. field. lra.
Qed.

Lemma estimateSlippage_is_priceImpact_witness :
  exists r,
    fst (simulateSwap 100 A example_pool) = Returned r /\
    estimateSlippage 100 (reserveIn A example_pool)
      (reserveOut A example_pool) (fee example_pool)
    = SwapResult.priceImpact r.
Proof.
  destruct (simulateSwap_total 100 A example_pool) as [r Hr]; [lra|].
  exists r. split; [exact Hr|].
  exact (estimateSlippage_is_priceImpact 100 A example_pool r
           example_pool_healthy Hr).
Defined.

(** X5.  The quotes invert each other on either side of a healthy pool.
    For a wanted output [y] strictly between 0 and the reserve it comes
    from, [getAmountIn] returns a positive input whose [getAmountOut] is [y];
    and for every input [x > 0], [getAmountIn] of its [getAmountOut] is [x],
    whichever token is paid in. *)
Theorem getAmountOut_getAmountIn tk p :
  healthy p ->
  (forall y, 0 < y < reserveOut tk p ->
     exists x, getAmountIn y (other tk) p = (Returned x, p) /\ 0 < x /\
               getAmountOut x tk p = (Returned y, p)) /\
  (forall x, 0 < x ->
     exists y, getAmountOut x tk p = (Returned y, p) /\
               0 < y < reserveOut tk p /\
               getAmountIn y (other tk) p = (Returned x, p)).
Proof.
  intros Hh. pose proof Hh as (HA & HB & Hf).
  assert (Hin : 0 < reserveIn tk p) by (destruct tk; simpl; lra).
  assert (Hout : 0 < reserveOut tk p) by (destruct tk; simpl; lra).
  assert (Hgi : forall y, 0 < y < reserveOut tk p ->
            getAmountIn y (other tk) p
            = (Returned (reserveIn tk p * y
                         / ((reserveOut tk p - y) * (1 - fee p))), p)).
  { intros y Hy. run_pool. case_decide; [lra|].
    destruct tk; simpl in *; (case_decide; [lra|]); reflexivity. }
  assert (Hgo : forall x, 0 < x ->
            getAmountOut x tk p
            = (Returned (reserveOut tk p
                         - reserveIn tk p * reserveOut tk p
                           / (reserveIn tk p + (x - x * fee p))), p)).
  { intros x Hx. run_pool. case_decide; [lra|].
    destruct tk; simpl; [reflexivity|].
    rewrite (Rmult_comm (tokenAReserve p)). reflexivity. }
  split.
  - intros y Hy.
    set (x := reserveIn tk p * y / ((reserveOut tk p - y) * (1 - fee p))).
    assert (Hx : 0 < x).
    { apply Rdiv_lt_0_compat; apply Rmult_lt_0_compat; lra. }
    exists x. split; [apply Hgi; exact Hy|]. split; [exact Hx|].
    rewrite Hgo by exact Hx. do 2 f_equal. unfold x. field.
    repeat split; try lra.
    assert (0 < reserveIn tk p * reserveOut tk p)
      by (apply Rmult_lt_0_compat; lra).
    nra.
  - intros x Hx.
    pose proof (amountOut_bounds _ _ _ _ Hin Hout Hf Hx) as Hy.
    eexists. split; [apply Hgo; exact Hx|]. split; [exact Hy|].
    rewrite Hgi by exact Hy. do 2 f_equal. field.
    assert (0 < x * (1 - fee p)) by (apply Rmult_lt_0_compat; lra).
    assert (0 < reserveIn tk p * reserveOut tk p)
      by (apply Rmult_lt_0_compat; lra).
    repeat split; lra.
Qed.

Lemma getAmountOut_getAmountIn_witness :
  exists x, getAmountIn 150 A example_pool = (Returned x, example_pool) /\
            0 < x /\
            getAmountOut x B example_pool = (Returned 150, example_pool).
Proof.
  apply (getAmountOut_getAmountIn B example_pool example_pool_healthy).
  rewrite example_pool_eq; simpl. lra.
Defined.

(** [addLiquidity] on a pool whose LP supply is not zero, as one equation:
    the side that is in excess is cut down to the ratio of the pool. *)
Lemma addLiquidity_initialized a b now p :
  lpTokenSupply p <> 0 ->
  let cr := tokenBReserve p / tokenAReserve p in
  let dA := if decide (b / a > cr) then a else b / cr in
  let dB := if decide (b / a > cr) then a * cr else b in
  let minted := Rmin (dA * lpTokenSupply p / tokenAReserve p)
                     (dB * lpTokenSupply p / tokenBReserve p) in
  addLiquidity a b now p
  = (Returned (AddLiquidityResult.mk minted dA dB
                 (minted / (lpTokenSupply p + minted))),
     mk (tokenAReserve p + dA) (tokenBReserve p + dB)
        (lpTokenSupply p + minted) (fee p) now).
Proof.
  intros HS. run_pool. case_decide; [contradiction|].
  case_decide; reflexivity.
Qed.

(** The two candidates for the mint are the same number. *)
Lemma addLiquidity_amounts a b p :
  0 < tokenAReserve p -> 0 < tokenBReserve p ->
  let cr := tokenBReserve p / tokenAReserve p in
  let dA := if decide (b / a > cr) then a else b / cr in
  let dB := if decide (b / a > cr) then a * cr else b in
  dB = dA * cr /\
  Rmin (dA * lpTokenSupply p / tokenAReserve p)
       (dB * lpTokenSupply p / tokenBReserve p)
  = dA * lpTokenSupply p / tokenAReserve p.
Proof.
  intros HA HB cr dA dB.
  assert (Hcr : 0 < cr) by (apply Rdiv_lt_0_compat; lra).
  assert (Hd : dB = dA * cr).
  { unfold dA, dB. case_decide; [reflexivity|]. unfold cr. field.
    split; lra. }
  split; [exact Hd|].
  rewrite Hd. unfold cr.
  replace (dA * (tokenBReserve p / tokenAReserve p) * lpTokenSupply p
           / tokenBReserve p)
    with (dA * lpTokenSupply p / tokenAReserve p) by (field; lra).
  apply Rmin_left. lra.
Qed.

(** X6.  Adding liquidity to an initialized pool with positive reserves:
    for positive amounts the call returns, deposits no more than was
    offered on either side and exactly what was offered on one, in the
    ratio of the reserves; it mints LP tokens in proportion to the deposit
    and leaves the price where it was. *)
Theorem addLiquidity_keeps_price a b now p :
  lpTokenSupply p <> 0 -> 0 < tokenAReserve p -> 0 < tokenBReserve p ->
  0 < a -> 0 < b ->
  exists res p',
    addLiquidity a b now p = (Returned res, p') /\
    let dA := AddLiquidityResult.tokenADeposited res in
    let dB := AddLiquidityResult.tokenBDeposited res in
    0 < dA <= a /\ 0 < dB <= b /\ (dA = a \/ dB = b) /\
    dB * tokenAReserve p = dA * tokenBReserve p /\
    AddLiquidityResult.lpTokensReceived res
    = dA * lpTokenSupply p / tokenAReserve p /\
    tokenAReserve p' = tokenAReserve p + dA /\
    tokenBReserve p' = tokenBReserve p + dB /\
    lpTokenSupply p'
    = lpTokenSupply p + AddLiquidityResult.lpTokensReceived res /\
    fst (getPrice p') = fst (getPrice p).
Proof.
  intros HS HA HB Ha Hb.
  pose proof (addLiquidity_initialized a b now p HS) as Heq.
  pose proof (addLiquidity_amounts a b p HA HB) as [Hd Hm].
  cbv zeta in Heq, Hd, Hm. rewrite Hm in Heq.
  do 2 eexists. split; [exact Heq|]. simpl.
  remember (tokenBReserve p / tokenAReserve p) as cr eqn:Ecr.
  assert (Hcr : 0 < cr) by (rewrite Ecr; apply Rdiv_lt_0_compat; lra).
  assert (HdA : 0 < (if decide (b / a > cr) then a else b / cr) <= a).
  { case_decide as Hc; [lra|]. split; [apply Rdiv_lt_0_compat; lra|].
    apply Rmult_le_reg_r with cr; [lra|].
    unfold Rdiv at 1. rewrite Rmult_assoc, Rinv_l by lra.
    assert (b / a <= cr) by lra.
    apply Rmult_le_compat_r with (r := a) in H; [|lra].
    unfold Rdiv in H at 1. rewrite Rmult_assoc, Rinv_l in H by lra. lra. }
  assert (HdB : 0 < (if decide (b / a > cr) then a * cr else b) <= b).
  { case_decide as Hc; [|lra]. split; [apply Rmult_lt_0_compat; lra|].
    apply Rmult_lt_compat_r with (r := a) in Hc; [|lra].
    unfold Rdiv in Hc at 1. rewrite Rmult_assoc, Rinv_l in Hc by lra. lra. }
  split; [exact HdA|]. split; [exact HdB|].
  split; [case_decide; [left|right]; reflexivity|].
  split; [rewrite Hd, Ecr; field; lra|].
  split; [reflexivity|]. split; [reflexivity|]. split; [reflexivity|].
  split; [reflexivity|].
  rewrite !getPrice_nonzero by (simpl; lra). simpl. f_equal.
  rewrite Hd.
  destruct HdA as [HdA _]. revert HdA.
  generalize (if decide (b / a > cr) then a else b / cr). intros dA HdA.
  rewrite Ecr. field. split; lra.
Qed.

Lemma addLiquidity_keeps_price_witness :
  exists res p',
    addLiquidity 1000 2000 1 example_pool = (Returned res, p') /\
    let dA := AddLiquidityResult.tokenADeposited res in
    let dB := AddLiquidityResult.tokenBDeposited res in
    0 < dA <= 1000 /\ 0 < dB <= 2000 /\ (dA = 1000 \/ dB = 2000) /\
    dB * tokenAReserve example_pool = dA * tokenBReserve example_pool /\
    AddLiquidityResult.lpTokensReceived res
    = dA * lpTokenSupply example_pool / tokenAReserve example_pool /\
    tokenAReserve p' = tokenAReserve example_pool + dA /\
    tokenBReserve p' = tokenBReserve example_pool + dB /\
    lpTokenSupply p'
    = lpTokenSupply example_pool + AddLiquidityResult.lpTokensReceived res /\
    fst (getPrice p') = fst (getPrice example_pool).
Proof.
  apply (addLiquidity_keeps_price 1000 2000 1 example_pool);
    try rewrite example_pool_eq; simpl;
    pose proof sqrt_150000000_bounds; lra.
Defined.

(** X7.  Liquidity that was added can be taken out again: burning the LP
    tokens an [addLiquidity] call minted pays back exactly what that call
    deposited and leaves reserves and LP supply as they were before it. *)
Theorem addLiquidity_removeLiquidity a b now now' p res p' :
  0 < lpTokenSupply p -> 0 < tokenAReserve p -> 0 < tokenBReserve p ->
  0 < a -> 0 < b ->
  addLiquidity a b now p = (Returned res, p') ->
  removeLiquidity (AddLiquidityResult.lpTokensReceived res) now' p'
  = (Returned (RemoveLiquidityResult.mk
                 (AddLiquidityResult.lpTokensReceived res)
                 (AddLiquidityResult.tokenADeposited res)
                 (AddLiquidityResult.tokenBDeposited res) 0),
     mk (tokenAReserve p) (tokenBReserve p) (lpTokenSupply p) (fee p) now').
Proof.
  intros HS HA HB Ha Hb Hadd.
  pose proof (addLiquidity_initialized a b now p ltac:(lra)) as Heq.
  pose proof (addLiquidity_amounts a b p HA HB) as [Hd Hm].
  cbv zeta in Heq, Hd, Hm. rewrite Hm in Heq.
  rewrite Heq in Hadd. injection Hadd as <- <-. simpl.
  set (cr := tokenBReserve p / tokenAReserve p) in *.
  assert (Hcr : 0 < cr) by (apply Rdiv_lt_0_compat; lra).
  set (dA := if decide (b / a > cr) then a else b / cr) in *.
  set (dB := if decide (b / a > cr) then a * cr else b) in *.
  assert (HdA : 0 < dA).
  { unfold dA. case_decide; [lra|]. apply Rdiv_lt_0_compat; lra. }
  clearbody dA dB.
  assert (Hmint : 0 < dA * lpTokenSupply p / tokenAReserve p).
  { apply Rdiv_lt_0_compat; [apply Rmult_lt_0_compat|]; lra. }
  unfold removeLiquidity, bind, this, assign, ret, throw; simpl.
  case_decide as Hc; [lra|].
  f_equal.
  - f_equal. f_equal.
    + field. split; [lra|].
      intros H0.
      assert (lpTokenSupply p * tokenAReserve p
              + dA * lpTokenSupply p = lpTokenSupply p * (tokenAReserve p + dA))
        by ring.
      assert (0 < lpTokenSupply p * (tokenAReserve p + dA))
        by (apply Rmult_lt_0_compat; lra).
      lra.
    + rewrite Hd. unfold cr. field. split; [lra|].
      intros H0.
      assert (lpTokenSupply p * tokenAReserve p
              + dA * lpTokenSupply p = lpTokenSupply p * (tokenAReserve p + dA))
        by ring.
      assert (0 < lpTokenSupply p * (tokenAReserve p + dA))
        by (apply Rmult_lt_0_compat; lra).
      lra.
  - assert (Hne : lpTokenSupply p * tokenAReserve p + dA * lpTokenSupply p <> 0).
    { assert (lpTokenSupply p * tokenAReserve p
              + dA * lpTokenSupply p = lpTokenSupply p * (tokenAReserve p + dA))
        by ring.
      assert (0 < lpTokenSupply p * (tokenAReserve p + dA))
        by (apply Rmult_lt_0_compat; lra).
      lra. }
    unfold set_lastUpdate, set_lpTokenSupply, set_tokenBReserve,
      set_tokenAReserve; simpl.
    f_equal.
    + field. split; lra.
    + rewrite Hd. unfold cr. field. split; lra.
    + lra.
Qed.

Lemma example_pool_supply : 0 < lpTokenSupply example_pool.
Proof.
  rewrite example_pool_eq; simpl. pose proof sqrt_150000000_bounds. lra.
Qed.

Lemma addLiquidity_removeLiquidity_witness :
  exists res p',
    addLiquidity 1000 2000 1 example_pool = (Returned res, p') /\
    removeLiquidity (AddLiquidityResult.lpTokensReceived res) 2 p'
    = (Returned (RemoveLiquidityResult.mk
                   (AddLiquidityResult.lpTokensReceived res)
                   (AddLiquidityResult.tokenADeposited res)
                   (AddLiquidityResult.tokenBDeposited res) 0),
       mk (tokenAReserve example_pool) (tokenBReserve example_pool)
          (lpTokenSupply example_pool) (fee example_pool) 2).
Proof.
  pose proof example_pool_supply as HS.
  pose proof example_pool_healthy as (HA & HB & _).
  pose proof (addLiquidity_initialized 1000 2000 1 example_pool
                ltac:(lra)) as Hadd.
  do 2 eexists. split; [exact Hadd|].
  apply (addLiquidity_removeLiquidity 1000 2000 1 2 example_pool _ _
           HS HA HB ltac:(lra) ltac:(lra) Hadd).
Defined.

(** X8.  Once the pool is initialized [addLiquidity] checks no sign: with
    two negative amounts on a pool with positive reserves it returns, and
    what it reports as deposited and as minted is negative, so both
    reserves and the LP supply go down. *)
Theorem addLiquidity_negative_amounts a b now p :
  0 < lpTokenSupply p -> 0 < tokenAReserve p -> 0 < tokenBReserve p ->
  a < 0 -> b < 0 ->
  exists res p',
    addLiquidity a b now p = (Returned res, p') /\
    AddLiquidityResult.tokenADeposited res < 0 /\
    AddLiquidityResult.tokenBDeposited res < 0 /\
    AddLiquidityResult.lpTokensReceived res < 0 /\
    tokenAReserve p' < tokenAReserve p /\
    tokenBReserve p' < tokenBReserve p /\
    lpTokenSupply p' < lpTokenSupply p.
Proof.
  intros HS HA HB Ha Hb.
  pose proof (addLiquidity_initialized a b now p ltac:(lra)) as Heq.
  pose proof (addLiquidity_amounts a b p HA HB) as [Hd Hm].
  cbv zeta in Heq, Hd, Hm. rewrite Hm in Heq.
  do 2 eexists. split; [exact Heq|]. simpl.
  remember (tokenBReserve p / tokenAReserve p) as cr eqn:Ecr.
  assert (Hcr : 0 < cr) by (rewrite Ecr; apply Rdiv_lt_0_compat; lra).
  rewrite Hd.
  assert (HdA : (if decide (b / a > cr) then a else b / cr) < 0).
  { case_decide; [lra|].
    apply Ropp_lt_cancel. rewrite Ropp_0.
    replace (- (b / cr)) with ((- b) / cr) by (field; lra).
    apply Rdiv_lt_0_compat; lra. }
  revert HdA. generalize (if decide (b / a > cr) then a else b / cr).
  intros dA HdA.
  assert (HdB : dA * cr < 0) by nra.
  assert (Hmint : dA * lpTokenSupply p / tokenAReserve p < 0).
  { apply Ropp_lt_cancel. rewrite Ropp_0.
    replace (- (dA * lpTokenSupply p / tokenAReserve p))
      with ((- dA) * lpTokenSupply p / tokenAReserve p) by (field; lra).
    apply Rdiv_lt_0_compat; [apply Rmult_lt_0_compat|]; lra. }
  repeat split; lra.
Qed.

Lemma addLiquidity_negative_amounts_witness :
  exists res p',
    addLiquidity (-1000) (-1500) 1 example_pool = (Returned res, p') /\
    AddLiquidityResult.tokenADeposited res < 0 /\
    AddLiquidityResult.tokenBDeposited res < 0 /\
    AddLiquidityResult.lpTokensReceived res < 0 /\
    tokenAReserve p' < tokenAReserve example_pool /\
    tokenBReserve p' < tokenBReserve example_pool /\
    lpTokenSupply p' < lpTokenSupply example_pool.
Proof.
  pose proof example_pool_supply as HS.
  pose proof example_pool_healthy as (HA & HB & _).
  apply (addLiquidity_negative_amounts (-1000) (-1500) 1 example_pool
           HS HA HB); lra.
Defined.

(** X9.  Burning the whole LP supply pays out both reserves in full and
    leaves an empty pool: reserves and supply are 0, the price reads 0, and
    the pool takes a fresh [initialize]. *)
Theorem removeLiquidity_all now p :
  0 < lpTokenSupply p ->
  removeLiquidity (lpTokenSupply p) now p
  = (Returned (RemoveLiquidityResult.mk (lpTokenSupply p)
                 (tokenAReserve p) (tokenBReserve p) 0),
     mk 0 0 0 (fee p) now) /\
  getPrice (mk 0 0 0 (fee p) now) = (Returned 0, mk 0 0 0 (fee p) now) /\
  forall a b now',
    0 < a -> 0 < b -> 1000 <= sqrt (a * b) ->
    initialize a b now' (mk 0 0 0 (fee p) now)
    = (Returned (AddLiquidityResult.mk (sqrt (a * b) - 1000) a b 1),
       mk a b (sqrt (a * b) - 1000) (fee p) now').
Proof.
  intros HS. split; [|split].
  - unfold removeLiquidity, bind, this, assign, ret, throw; simpl.
    case_decide; [lra|].
    unfold set_lastUpdate, set_lpTokenSupply, set_tokenBReserve,
      set_tokenAReserve; simpl.
    replace (lpTokenSupply p / lpTokenSupply p) with 1 by (field; lra).
    rewrite !Rmult_1_r.
    replace (tokenAReserve p - tokenAReserve p) with 0 by lra.
    replace (tokenBReserve p - tokenBReserve p) with 0 by lra.
    replace (lpTokenSupply p - lpTokenSupply p) with 0 by lra.
    reflexivity.
  - run_pool. case_decide; [reflexivity|contradiction].
  - intros a b now' Ha Hb Hab. run_pool. unfold MINIMUM_LIQUIDITY.
    repeat (case_decide; try lra). reflexivity.
Qed.

Lemma removeLiquidity_all_witness :
  removeLiquidity (lpTokenSupply example_pool) 3 example_pool
  = (Returned (RemoveLiquidityResult.mk (lpTokenSupply example_pool)
                 (tokenAReserve example_pool)
                 (tokenBReserve example_pool) 0),
     mk 0 0 0 (fee example_pool) 3).
Proof.
  apply (removeLiquidity_all 3 example_pool). exact example_pool_supply.
Defined.

(** X10.  [initialize] guards on [lpTokenSupply > 0] only.  When
    [sqrt(a*b)] is exactly [MINIMUM_LIQUIDITY] the call returns with a grant
    and a supply of 0, and the pool, although it holds [a] and [b], accepts
    a second [initialize], which replaces the reserves. *)
Theorem initialize_zero_grant a b now p :
  lpTokenSupply p <= 0 -> 0 < a -> 0 < b -> sqrt (a * b) = 1000 ->
  initialize a b now p
  = (Returned (AddLiquidityResult.mk 0 a b 1), mk a b 0 (fee p) now) /\
  forall a' b' now',
    0 < a' -> 0 < b' -> 1000 <= sqrt (a' * b') ->
    initialize a' b' now' (mk a b 0 (fee p) now)
    = (Returned (AddLiquidityResult.mk (sqrt (a' * b') - 1000) a' b' 1),
       mk a' b' (sqrt (a' * b') - 1000) (fee p) now').
Proof.
  intros HS Ha Hb Hab. split.
  - run_pool. unfold MINIMUM_LIQUIDITY. rewrite Hab.
    repeat (case_decide; try lra).
    replace (1000 - 1000) with 0 by lra. reflexivity.
  - intros a' b' now' Ha' Hb' Hab'. run_pool. unfold MINIMUM_LIQUIDITY.
    repeat (case_decide; try lra). reflexivity.
Qed.

Lemma initialize_zero_grant_witness :
  initialize 1000 1000 0 (constructor 0.003 0)
  = (Returned (AddLiquidityResult.mk 0 1000 1000 1),
     mk 1000 1000 0 (fee (constructor 0.003 0)) 0).
Proof.
  apply (initialize_zero_grant 1000 1000 0 (constructor 0.003 0));
    simpl; try lra.
  apply sqrt_square. lra.
Defined.

(** X11.  Impermanent loss is a loss: for positive prices
    [calculateImpermanentLoss] lies in (-1, 0], and it is 0 exactly when the
    price has not moved. *)
Theorem calculateImpermanentLoss_bounds entryPrice currentPrice :
  0 < entryPrice -> 0 < currentPrice ->
  -1 < calculateImpermanentLoss entryPrice currentPrice <= 0 /\
  (calculateImpermanentLoss entryPrice currentPrice = 0
   <-> currentPrice = entryPrice).
Proof.
  intros He Hc. unfold calculateImpermanentLoss.
  assert (Hr : 0 < currentPrice / entryPrice)
    by (apply Rdiv_lt_0_compat; lra).
  remember (currentPrice / entryPrice) as r eqn:Er.
  pose proof (sqrt_lt_R0 r Hr) as Hs.
  pose proof (sqrt_sqrt r ltac:(lra)) as Hsq.
  revert Hs Hsq. generalize (sqrt r). intros s Hs Hsq.
  assert (Hd : 0 < 1 + s * s).
  { pose proof (Rle_0_sqr s) as H2. unfold Rsqr in H2. lra. }
  replace (s / ((1 + r) / 2)) with (2 * s / (1 + s * s))
    by (rewrite <- Hsq; field; lra).
  assert (Hpos : 0 < 2 * s / (1 + s * s))
    by (apply Rdiv_lt_0_compat; lra).
  assert (Hle : 2 * s / (1 + s * s) <= 1).
  { apply Rmult_le_reg_r with (1 + s * s); [lra|].
    unfold Rdiv. rewrite Rmult_assoc, Rinv_l by lra.
    pose proof (Rle_0_sqr (s - 1)) as H2. unfold Rsqr in H2. lra. }
  assert (Hcur : currentPrice = r * entryPrice) by (rewrite Er; field; lra).
  split; [lra|]. split.
  - intros H0.
    assert (H1 : 2 * s / (1 + s * s) = 1) by lra.
    apply (f_equal (fun x => x * (1 + s * s))) in H1.
    unfold Rdiv in H1. rewrite Rmult_assoc, Rinv_l in H1 by lra.
    assert (Hs1 : (s - 1) * (s - 1) = 0) by lra.
    apply Rmult_integral in Hs1.
    assert (Hs2 : s = 1) by lra. rewrite Hs2 in Hsq.
    rewrite Hcur, <- Hsq. lra.
  - intros Heq. rewrite Heq in Hcur.
    assert (Hr1 : r = 1).
    { apply Rmult_eq_reg_r with entryPrice; lra. }
    rewrite Hr1 in Hsq.
    assert (Hs1 : (s - 1) * (s + 1) = 0) by lra.
    apply Rmult_integral in Hs1.
    assert (Hs2 : s = 1) by lra. rewrite Hs2. lra.
Qed.

Lemma calculateImpermanentLoss_bounds_witness :
  -1 < calculateImpermanentLoss 1.5 6 <= 0 /\
  (calculateImpermanentLoss 1.5 6 = 0 <-> 6 = 1.5).
Proof.
  apply (calculateImpermanentLoss_bounds 1.5 6); lra.
Defined.

(** X12.  [getLiquidityPosition] prices a holding at what [removeLiquidity]
    would pay for it: for [0 < lpTokens <= lpTokenSupply] on a pool with
    [tokenAReserve <> 0] both report the same two token amounts, the value
    of the holding in token B is twice its token B amount, and the pool is
    not changed by the query.  A holding of nothing, or in a pool without
    supply, is the all-zero position. *)
Theorem getLiquidityPosition_matches_removeLiquidity lp now p :
  (lp <= 0 \/ lpTokenSupply p = 0 ->
   getLiquidityPosition lp p
   = (Returned (LiquidityPosition.mk 0 0 0 0 0 0 0), p)) /\
  (0 < lp <= lpTokenSupply p -> tokenAReserve p <> 0 ->
   exists pos res p',
     getLiquidityPosition lp p = (Returned pos, p) /\
     removeLiquidity lp now p = (Returned res, p') /\
     LiquidityPosition.shareOfPool pos = lp / lpTokenSupply p /\
     LiquidityPosition.tokenAAmount pos
     = RemoveLiquidityResult.tokenAReceived res /\
     LiquidityPosition.tokenBAmount pos
     = RemoveLiquidityResult.tokenBReceived res /\
     LiquidityPosition.entryPrice pos = tokenBReserve p / tokenAReserve p /\
     LiquidityPosition.currentValue pos
     = 2 * LiquidityPosition.tokenBAmount pos).
Proof.
  split.
  - intros H. run_pool. case_decide; [reflexivity|tauto].
  - intros Hlp HA.
    unfold getLiquidityPosition, removeLiquidity, bind, this, assign, ret,
      throw; simpl.
    case_decide as H1; [destruct H1; lra|].
    case_decide as H2; [destruct H2; lra|].
    rewrite getPrice_nonzero by exact HA.
    do 3 eexists. split; [reflexivity|]. split; [reflexivity|]. simpl.
    repeat split; try reflexivity. field. split; lra.
Qed.

Lemma getLiquidityPosition_matches_removeLiquidity_witness :
  exists pos res p',
    getLiquidityPosition 500 example_pool = (Returned pos, example_pool) /\
    removeLiquidity 500 1 example_pool = (Returned res, p') /\
    LiquidityPosition.shareOfPool pos = 500 / lpTokenSupply example_pool /\
    LiquidityPosition.tokenAAmount pos
    = RemoveLiquidityResult.tokenAReceived res /\
    LiquidityPosition.tokenBAmount pos
    = RemoveLiquidityResult.tokenBReceived res /\
    LiquidityPosition.entryPrice pos
    = tokenBReserve example_pool / tokenAReserve example_pool /\
    LiquidityPosition.currentValue pos
    = 2 * LiquidityPosition.tokenBAmount pos.
Proof.
  apply (getLiquidityPosition_matches_removeLiquidity 500 1 example_pool);
    rewrite example_pool_eq; simpl; pose proof sqrt_150000000_bounds; lra.
Defined.

(** X13.  [calculateOptimalSwapAmount] on a healthy pool, for positive
    amounts: it answers [null] exactly when the offered ratio is within
    0.001 of the ratio of the pool; otherwise it names the token that is in
    excess (B when the offered ratio is the larger) and a positive amount
    of it, less than half of what was offered. *)
Theorem calculateOptimalSwapAmount_spec tA tB p :
  healthy p -> 0 < tA -> 0 < tB ->
  let cr := tokenBReserve p / tokenAReserve p in
  exists res,
    calculateOptimalSwapAmount tA tB p = (Returned res, p) /\
    (res = None <-> Rabs (tB / tA - cr) < 0.001) /\
    forall s, res = Some s ->
      0 < swapAmount s /\
      match tokenToSwap s with
      | B => tB / tA > cr /\ swapAmount s < tB / 2
      | A => tB / tA < cr /\ swapAmount s < tA / 2
      end.
Proof.
  intros (HA & HB & Hf) HtA HtB cr.
  assert (Hcr : 0 < cr) by (apply Rdiv_lt_0_compat; lra).
  assert (Hpr : tB = tB / tA * tA) by (field; lra).
  unfold calculateOptimalSwapAmount, bind, this, ret; simpl. fold cr.
  remember (tB / tA) as pr eqn:Epr.
  clearbody cr.
  case_decide as Hn.
  { eexists. split; [reflexivity|]. split; [tauto|]. discriminate. }
  case_decide as Hg.
  - eexists. split; [reflexivity|].
    split; [split; [discriminate|contradiction]|].
    intros s [= <-]. simpl.
    assert (Hex : 0 < tB - tA * cr) by nra.
    assert (Hc1 : 0 < cr * (1 - fee p)) by (apply Rmult_lt_0_compat; lra).
    split; [apply Rdiv_lt_0_compat; lra|]. split; [exact Hg|].
    apply Rmult_lt_reg_r with (2 * (1 + cr * (1 - fee p))); [lra|].
    unfold Rdiv at 1. rewrite Rmult_assoc, Rinv_l by lra.
    assert (0 < tA * cr) by (apply Rmult_lt_0_compat; lra).
    assert (0 < tB * (cr * (1 - fee p))) by (apply Rmult_lt_0_compat; lra).
    lra.
  - assert (Hlt : pr < cr).
    { unfold Rabs in Hn. destruct (Rcase_abs (pr - cr)); lra. }
    eexists. split; [reflexivity|].
    split; [split; [discriminate|contradiction]|].
    intros s [= <-]. simpl.
    assert (Hq : 0 < tB / cr) by (apply Rdiv_lt_0_compat; lra).
    assert (Hq2 : tB / cr < tA).
    { apply Rmult_lt_reg_r with cr; [lra|].
      unfold Rdiv. rewrite Rmult_assoc, Rinv_l by lra. nra. }
    assert (Hc1 : 0 < (1 - fee p) / cr) by (apply Rdiv_lt_0_compat; lra).
    split; [apply Rdiv_lt_0_compat; lra|]. split; [exact Hlt|].
    apply Rmult_lt_reg_r with (2 * (1 + (1 - fee p) / cr)); [lra|].
    unfold Rdiv at 1. rewrite Rmult_assoc, Rinv_l by lra.
    assert (0 < tA * ((1 - fee p) / cr)) by (apply Rmult_lt_0_compat; lra).
    lra.
Qed.

Lemma calculateOptimalSwapAmount_spec_witness :
  let cr := tokenBReserve example_pool / tokenAReserve example_pool in
  exists res,
    calculateOptimalSwapAmount 1000 2000 example_pool
    = (Returned res, example_pool) /\
    (res = None <-> Rabs (2000 / 1000 - cr) < 0.001) /\
    forall s, res = Some s ->
      0 < swapAmount s /\
      match tokenToSwap s with
      | B => 2000 / 1000 > cr /\ swapAmount s < 2000 / 2
      | A => 2000 / 1000 < cr /\ swapAmount s < 1000 / 2
      end.
Proof.
  apply (calculateOptimalSwapAmount_spec 1000 2000 example_pool
           example_pool_healthy); lra.
Defined.

Lemma initialize_state a b now p :
  snd (initialize a b now p) = p \/
  (0 < a /\ 0 < b /\ 1000 <= sqrt (a * b) /\
   snd (initialize a b now p) = mk a b (sqrt (a * b) - 1000) (fee p) now).
Proof.
  run_pool. unfold MINIMUM_LIQUIDITY.
  repeat case_decide; simpl;
    first [ left; reflexivity
          | right; repeat split; try reflexivity; lra ].
Qed.

Lemma initialize_invariant a b now p :
  invariant p -> invariant (snd (initialize a b now p)).
Proof.
  intros Hinv.
  destruct (initialize_state a b now p) as [-> | (Ha & Hb & Hs & ->)];
    [exact Hinv|].
  destruct Hinv as (_ & _ & _ & _ & Hf).
  unfold invariant; simpl. repeat split; lra.
Qed.

Lemma executeSwap_state a tk m now p :
  snd (executeSwap a tk m now p) = p \/
  exists r, executeSwap a tk m now p = (Returned r, snd (executeSwap a tk m now p)).
Proof.
  unfold executeSwap, bind. rewrite simulateSwap_split.
  destruct (fst (simulateSwap a tk p)) as [r|e]; [|left; reflexivity].
  case_decide; [left; reflexivity|].
  right. exists r. destruct tk; reflexivity.
Qed.

Ltac nonneg :=
  first [ lra
        | apply Rmult_le_pos; [apply Rmult_le_pos; lra|];
          left; apply Rinv_0_lt_compat; lra ].

Lemma executeSwap_invariant a tk m now p :
  invariant p -> invariant (snd (executeSwap a tk m now p)).
Proof.
  intros Hinv.
  destruct (executeSwap_state a tk m now p) as [-> | [r Hex]];
    [exact Hinv|].
  destruct Hinv as (HA & HB & HS & Hpos & Hf).
  apply executeSwap_returned in Hex as (Hsim & _ & ->).
  pose proof (simulateSwap_returned _ _ _ _ Hsim) as (Ha & _ & Hfee & Hout).
  assert (Hx : 0 < a * (1 - fee p)) by (apply Rmult_lt_0_compat; lra).
  unfold invariant.
  destruct tk; simpl; rewrite Hout, Hfee.
  - assert (Hd : 0 < tokenAReserve p + (a - a * fee p)) by lra.
    replace (tokenBReserve p
             - (tokenBReserve p
                - tokenAReserve p * tokenBReserve p
                  / (tokenAReserve p + (a - a * fee p))))
      with (tokenAReserve p * tokenBReserve p
            / (tokenAReserve p + (a - a * fee p))) by lra.
    split; [nonneg|]. split; [nonneg|]. split; [lra|]. split; [|lra].
    intros HS'. destruct (Hpos HS') as [HA' HB'].
    split; first [ lra
                 | apply Rdiv_lt_0_compat; [apply Rmult_lt_0_compat|]; lra ].
  - assert (Hd : 0 < tokenBReserve p + (a - a * fee p)) by lra.
    replace (tokenAReserve p
             - (tokenAReserve p
                - tokenAReserve p * tokenBReserve p
                  / (tokenBReserve p + (a - a * fee p))))
      with (tokenAReserve p * tokenBReserve p
            / (tokenBReserve p + (a - a * fee p))) by lra.
    split; [nonneg|]. split; [nonneg|]. split; [lra|]. split; [|lra].
    intros HS'. destruct (Hpos HS') as [HA' HB'].
    split; first [ lra
                 | apply Rdiv_lt_0_compat; [apply Rmult_lt_0_compat|]; lra ].
Qed.

Lemma addLiquidity_invariant a b now p :
  0 < a -> 0 < b ->
  invariant p -> invariant (snd (addLiquidity a b now p)).
Proof.
  intros Ha Hb Hinv.
  destruct (decide (lpTokenSupply p = 0)) as [H0|H0].
  - replace (addLiquidity a b now p) with (initialize a b now p).
    + apply initialize_invariant. exact Hinv.
    + unfold addLiquidity at 1, bind, this. simpl.
      case_decide; [reflexivity|contradiction].
  - destruct Hinv as (HA & HB & HS & Hpos & Hf).
    destruct (Hpos ltac:(lra)) as [HA' HB'].
    pose proof (addLiquidity_initialized a b now p H0) as Heq.
    pose proof (addLiquidity_amounts a b p HA' HB') as [Hd Hm].
    cbv zeta in Heq, Hd, Hm. rewrite Hm, Hd in Heq. rewrite Heq. simpl.
    remember (tokenBReserve p / tokenAReserve p) as cr eqn:Ecr.
    assert (Hcr : 0 < cr) by (rewrite Ecr; apply Rdiv_lt_0_compat; lra).
    assert (HdA : 0 < (if decide (b / a > cr) then a else b / cr)).
    { case_decide; [lra|]. apply Rdiv_lt_0_compat; lra. }
    revert HdA. generalize (if decide (b / a > cr) then a else b / cr).
    intros dA HdA.
    assert (0 < dA * cr) by (apply Rmult_lt_0_compat; lra).
    assert (0 < dA * lpTokenSupply p / tokenAReserve p).
    { apply Rdiv_lt_0_compat; [apply Rmult_lt_0_compat|]; lra. }
    unfold invariant; simpl. repeat split; lra.
Qed.

Lemma removeLiquidity_invariant lp now p :
  invariant p -> invariant (snd (removeLiquidity lp now p)).
Proof.
  intros (HA & HB & HS & Hpos & Hf).
  unfold removeLiquidity, bind, this, assign, ret, throw; simpl.
  case_decide as Hc; simpl; [unfold invariant; tauto|].
  assert (Hlp : 0 < lp <= lpTokenSupply p) by (split; lra).
  destruct (Hpos ltac:(lra)) as [HA' HB'].
  assert (Hs : 0 < lp / lpTokenSupply p <= 1).
  { split; [apply Rdiv_lt_0_compat; lra|].
    apply Rmult_le_reg_r with (lpTokenSupply p); [lra|].
    unfold Rdiv. rewrite Rmult_assoc, Rinv_l; lra. }
  remember (lp / lpTokenSupply p) as s eqn:Es.
  assert (Hrel : lp = s * lpTokenSupply p) by (rewrite Es; field; lra).
  unfold invariant; simpl.
  assert (0 <= tokenAReserve p * (1 - s)) by (apply Rmult_le_pos; lra).
  assert (0 <= tokenBReserve p * (1 - s)) by (apply Rmult_le_pos; lra).
  split; [lra|]. split; [lra|]. split; [lra|]. split; [|lra].
  intros Hlt. assert (s < 1).
  { destruct (Rle_lt_or_eq_dec s 1 ltac:(lra)) as [|E]; [assumption|].
    rewrite E in Hrel. lra. }
  assert (0 < tokenAReserve p * (1 - s))
    by (apply Rmult_lt_0_compat; lra).
  assert (0 < tokenBReserve p * (1 - s))
    by (apply Rmult_lt_0_compat; lra).
  lra.
Qed.

Lemma call_invariant c p :
  positive_deposit c -> invariant p -> invariant (call c p).
Proof.
  intros Hc Hinv. destruct c; simpl in *.
  - apply initialize_invariant; assumption.
  - apply executeSwap_invariant; assumption.
  - destruct Hc. apply addLiquidity_invariant; assumption.
  - apply removeLiquidity_invariant; assumption.
  - unfold setFee, throw, assign. case_decide; simpl; [exact Hinv|].
    destruct Hinv as (HA & HB & HS & Hpos & Hf).
    unfold invariant; simpl.
    split; [lra|]. split; [lra|]. split; [lra|]. split; [exact Hpos|lra].
  - unfold reset, bind, assign; simpl.
    destruct Hinv as (HA & HB & HS & Hpos & Hf).
    unfold invariant; simpl.
    split; [lra|]. split; [lra|]. split; [lra|]. split; [lra|lra].
Qed.

(** X14.  The pool keeps its data-model invariant through any sequence of
    calls.  Starting from [new LiquidityPool(fee)] with a fee in [0,1) and
    running [initialize], [executeSwap], [addLiquidity], [removeLiquidity],
    [setFee] and [reset] in any order and with any arguments (positive
    amounts for [addLiquidity]), whether a call returns or throws: the
    reserves and the LP supply are never negative, the fee stays in [0,1),
    and while LP tokens are outstanding both reserves are positive. *)
Theorem calls_keep_invariant fee0 now (l : list Call) :
  0 <= fee0 < 1 -> Forall positive_deposit l ->
  invariant (calls l (constructor fee0 now)).
Proof.
  intros Hf Hl.
  assert (H0 : invariant (constructor fee0 now)).
  { unfold invariant, constructor; simpl. repeat split; lra. }
  revert H0. generalize (constructor fee0 now).
  unfold calls. induction Hl as [|c l Hc Hl IH]; intros p Hp; simpl.
  - exact Hp.
  - apply IH. apply call_invariant; assumption.
Qed.

Lemma calls_keep_invariant_witness :
  invariant
    (calls [CallInitialize 10000 15000 0; CallExecuteSwap 100 A 145 1;
            CallAddLiquidity 1000 1500 2; CallRemoveLiquidity 500 3;
            CallSetFee 0.01; CallExecuteSwap 50 B 0 4]
       (constructor 0.003 0)).
Proof.
  apply (calls_keep_invariant 0.003 0); [lra|].
  repeat constructor; simpl; lra.
Defined.

End LiquidityPoolMore.

(** ** More on the inventory ledger *)

Section InventoryControllerMore.
Import InventoryController.

Lemma tanh_bounds x : -1 < tanh x < 1.
Proof.
  unfold tanh, sinh, cosh.
  pose proof (exp_pos x) as H1. pose proof (exp_pos (- x)) as H2.
  revert H1 H2. generalize (exp x) (exp (- x)). intros u v Hu Hv.
  replace ((u - v) / 2 / ((u + v) / 2)) with ((u - v) / (u + v))
    by (field; lra).
  split.
  - apply Rmult_lt_reg_r with (u + v); [lra|].
    unfold Rdiv. rewrite Rmult_assoc, Rinv_l by lra. lra.
  - apply Rmult_lt_reg_r with (u + v); [lra|].
    unfold Rdiv. rewrite Rmult_assoc, Rinv_l by lra. lra.
Qed.

Lemma tanh_sign x : (0 < x -> 0 < tanh x) /\ (x < 0 -> tanh x < 0)
                    /\ (x = 0 -> tanh x = 0).
Proof.
  unfold tanh, sinh, cosh.
  pose proof (exp_pos x) as H1. pose proof (exp_pos (- x)) as H2.
  assert (Hmono : (0 < x -> exp (- x) < exp x) /\ (x < 0 -> exp x < exp (- x))).
  { split; intros; apply exp_increasing; lra. }
  assert (H0 : x = 0 -> exp x = exp (- x)).
  { intros ->. rewrite Ropp_0. reflexivity. }
  revert H1 H2 Hmono H0. generalize (exp x) (exp (- x)).
  intros u v Hu Hv [Hp Hn] H0.
  replace ((u - v) / 2 / ((u + v) / 2)) with ((u - v) / (u + v))
    by (field; lra).
  split; [|split]; intros Hx.
  - apply Rdiv_lt_0_compat; [specialize (Hp Hx)|]; lra.
  - specialize (Hn Hx).
    apply Ropp_lt_cancel. rewrite Ropp_0.
    replace (- ((u - v) / (u + v))) with ((v - u) / (u + v)) by (field; lra).
    apply Rdiv_lt_0_compat; lra.
  - rewrite (H0 Hx). unfold Rdiv. replace (v - v) with 0 by lra. lra.
Qed.

(** The deviation from the target never exceeds the larger of the two
    distances from the target to a limit. *)
Lemma deviation_le_available c :
  within_limits c ->
  let cfg := config c in
  Rabs (currentInventory c - InventoryConfig.targetInventory cfg)
  <= Rmax (Rabs (InventoryConfig.maxInventory cfg
                 - InventoryConfig.targetInventory cfg))
          (Rabs (InventoryConfig.minInventory cfg
                 - InventoryConfig.targetInventory cfg)).
Proof.
  intros [Hlo Hhi]. simpl.
  revert Hlo Hhi.
  generalize (currentInventory c)
    (InventoryConfig.targetInventory (config c))
    (InventoryConfig.maxInventory (config c))
    (InventoryConfig.minInventory (config c)).
  intros cur tgt hi lo Hlo Hhi.
  unfold Rmax, Rabs.
  repeat (destruct (Rle_dec _ _) || destruct (Rcase_abs _)); lra.
Qed.

(** X15.  [getState] always reports an [inventoryRatio] in [0,1] and a
    [skewFactor] strictly between -1 and 1.  With [minInventory <
    maxInventory] and the inventory within the limits the ratio is the
    position of the inventory between them, unclamped; with a positive
    [skewSensitivity] and limits that are not both at the target, the skew
    factor has the sign of the deviation from the target. *)
Theorem getState_bounds c :
  let st := getState c in
  let cfg := config c in
  0 <= InventoryState.inventoryRatio st <= 1 /\
  -1 < InventoryState.skewFactor st < 1 /\
  (InventoryConfig.minInventory cfg < InventoryConfig.maxInventory cfg ->
   within_limits c ->
   InventoryState.inventoryRatio st
   = (currentInventory c - InventoryConfig.minInventory cfg)
     / (InventoryConfig.maxInventory cfg - InventoryConfig.minInventory cfg))
  /\
  (InventoryConfig.minInventory cfg < InventoryConfig.maxInventory cfg ->
   0 < InventoryConfig.skewSensitivity cfg ->
   (currentInventory c > InventoryConfig.targetInventory cfg ->
    InventoryState.skewFactor st > 0) /\
   (currentInventory c < InventoryConfig.targetInventory cfg ->
    InventoryState.skewFactor st < 0) /\
   (currentInventory c = InventoryConfig.targetInventory cfg ->
    InventoryState.skewFactor st = 0)).
Proof.
  intros st cfg. unfold st, getState. fold cfg. simpl.
  split; [|split; [|split]].
  - split; [apply Rmax_l|].
    apply Rmax_lub; [lra|apply Rmin_l].
  - unfold calculateSkewFactor. case_decide; [lra|apply tanh_bounds].
  - intros Hlt [Hlo Hhi]. fold cfg in Hlo, Hhi.
    case_decide; [|lra].
    set (q := (currentInventory c - InventoryConfig.minInventory cfg)
              / (InventoryConfig.maxInventory cfg
                 - InventoryConfig.minInventory cfg)).
    assert (Hq : 0 <= q <= 1).
    { unfold q. split.
      - apply Rmult_le_pos; [lra|]. left. apply Rinv_0_lt_compat. lra.
      - apply Rmult_le_reg_r
          with (InventoryConfig.maxInventory cfg
                - InventoryConfig.minInventory cfg); [lra|].
        unfold Rdiv. rewrite Rmult_assoc, Rinv_l by lra. lra. }
    clearbody q. rewrite Rmin_right, Rmax_right by lra. reflexivity.
  - intros Hlt Hsens. unfold calculateSkewFactor. fold cfg.
    set (md := Rmax (Rabs (InventoryConfig.maxInventory cfg
                           - InventoryConfig.targetInventory cfg))
                    (Rabs (InventoryConfig.minInventory cfg
                           - InventoryConfig.targetInventory cfg))).
    assert (Hmd : 0 < md).
    { unfold md, Rmax, Rabs.
      repeat (destruct (Rle_dec _ _) || destruct (Rcase_abs _)); lra. }
    clearbody md. case_decide; [lra|].
    pose proof (tanh_sign ((currentInventory c
                            - InventoryConfig.targetInventory cfg) / md
                           * InventoryConfig.skewSensitivity cfg))
      as (Hp & Hn & Hz).
    split; [|split]; intros Hd.
    + apply Hp. apply Rmult_lt_0_compat; [|lra].
      apply Rdiv_lt_0_compat; lra.
    + apply Hn.
      apply Ropp_lt_cancel. rewrite Ropp_0.
      replace (- ((currentInventory c - InventoryConfig.targetInventory cfg)
                  / md * InventoryConfig.skewSensitivity cfg))
        with ((InventoryConfig.targetInventory cfg - currentInventory c)
              / md * InventoryConfig.skewSensitivity cfg) by (field; lra).
      apply Rmult_lt_0_compat; [|lra]. apply Rdiv_lt_0_compat; lra.
    + apply Hz. rewrite Hd. unfold Rdiv.
      replace (InventoryConfig.targetInventory cfg
               - InventoryConfig.targetInventory cfg) with 0 by lra.
      lra.
Qed.

Lemma getState_bounds_witness :
  let c := set_currentInventory 500 (constructor DEFAULT_INVENTORY_CONFIG) in
  InventoryState.inventoryRatio (getState c) = (500 - -1000) / (1000 - -1000)
  /\ InventoryState.skewFactor (getState c) > 0.
Proof.
  intros c.
  destruct (getState_bounds c) as (_ & _ & Hr & Hs).
  split.
  - apply Hr; unfold within_limits; simpl; lra.
  - apply Hs; simpl; lra.
Defined.

(** X16.  With the inventory within the limits, [getInventoryUtilization]
    lies in [0,1], wherever the target sits. *)
Theorem getInventoryUtilization_bounds c :
  within_limits c -> 0 <= getInventoryUtilization c <= 1.
Proof.
  intros Hin. pose proof (deviation_le_available c Hin) as Hle.
  cbv zeta in Hle. unfold getInventoryUtilization.
  pose proof (Rabs_pos (currentInventory c
                        - InventoryConfig.targetInventory (config c))) as H0.
  revert Hle H0.
  generalize (Rabs (currentInventory c
                    - InventoryConfig.targetInventory (config c))).
  generalize (Rmax (Rabs (InventoryConfig.maxInventory (config c)
                          - InventoryConfig.targetInventory (config c)))
                   (Rabs (InventoryConfig.minInventory (config c)
                          - InventoryConfig.targetInventory (config c)))).
  intros av used Hle H0. case_decide; [|lra].
  split.
  - apply Rmult_le_pos; [lra|]. left. apply Rinv_0_lt_compat. lra.
  - apply Rmult_le_reg_r with av; [lra|].
    unfold Rdiv. rewrite Rmult_assoc, Rinv_l by lra. lra.
Qed.

Lemma getInventoryUtilization_bounds_witness :
  0 <= getInventoryUtilization
         (set_currentInventory 700 (constructor DEFAULT_INVENTORY_CONFIG))
    <= 1.
Proof.
  apply (getInventoryUtilization_bounds
           (set_currentInventory 700 (constructor DEFAULT_INVENTORY_CONFIG))).
  unfold within_limits; simpl; lra.
Defined.

(** X17.  [calculatePosition] needs none of its three cases: long, short or
    flat, the unrealized P&L is the inventory times the distance of the
    price from the average entry price; the quote balance is the net
    exposure with its sign turned. *)
Theorem calculatePosition_unrealizedPnL price c :
  let pos := calculatePosition price c in
  Position.unrealizedPnL pos
  = currentInventory c * (price - avgEntryPrice c) /\
  Position.baseBalance pos = currentInventory c /\
  Position.netExposure pos = currentInventory c * price /\
  Position.quoteBalance pos + Position.netExposure pos = 0.
Proof.
  unfold calculatePosition; simpl.
  repeat split; try lra.
  repeat case_decide; try lra.
  - rewrite Rabs_left by lra. lra.
  - assert (currentInventory c = 0) as -> by lra. lra.
Qed.

(** [updateInventory] as one equation: every field of the ledger and the
    warnings, in terms of the ledger before and the trade. *)
Lemma updateInventory_spec trade c :
  let hi := InventoryConfig.maxInventory (config c) in
  let lo := InventoryConfig.minInventory (config c) in
  let m := moved trade c in
  let h := tradeHistory c ++ [trade] in
  updateInventory trade c
  = (mk (config c)
        (if decide (m > hi) then hi else if decide (m < lo) then lo else m)
        (if decide (1000 < length h)%nat then slice_last 500 h else h)
        (match Trade.side trade with
         | buy =>
             if decide (m > 0)
             then (avgEntryPrice c * (m - Trade.size trade)
                   + Trade.price trade * Trade.size trade) / m
             else avgEntryPrice c
         | sell =>
             if decide (m < 0)
             then (avgEntryPrice c * Rabs (m + Trade.size trade)
                   + Trade.price trade * Trade.size trade) / Rabs m
             else avgEntryPrice c
         end),
     if decide (m > hi) then [ExceededMax m hi]
     else if decide (m < lo) then [BelowMin m lo] else []).
Proof.
  destruct c as [cfg cur h avg].
  destruct trade as [id side price size ts fee].
  unfold updateInventory, moved. simpl.
  destruct side; simpl.
  - unfold updateAvgEntryPrice; simpl.
    destruct (decide (cur + size > 0)); simpl;
      destruct (decide (1000 < length (h ++ [Trade.mk id buy price size ts fee]))%nat);
      simpl; unfold enforceInventoryLimits; simpl;
      destruct (decide (cur + size > InventoryConfig.maxInventory cfg));
      simpl; try reflexivity;
      destruct (decide (cur + size < InventoryConfig.minInventory cfg));
      reflexivity.
  - unfold updateAvgEntryPrice; simpl.
    destruct (decide (cur - size < 0)); simpl;
      destruct (decide (1000 < length (h ++ [Trade.mk id sell price size ts fee]))%nat);
      simpl; unfold enforceInventoryLimits; simpl;
      destruct (decide (cur - size > InventoryConfig.maxInventory cfg));
      simpl; try reflexivity;
      destruct (decide (cur - size < InventoryConfig.minInventory cfg));
      reflexivity.
Qed.

(** X18.  The ledger's own admission test agrees with its limits.  With the
    inventory within the limits and a size that is not negative,
    [shouldAcceptOrder] accepts exactly the sizes up to [getMaxOrderSize],
    and the fill of an accepted order moves the inventory by its size
    without capping or warning, leaving it within the limits. *)
Theorem accepted_order_fills_without_capping trade c :
  within_limits c -> 0 <= Trade.size trade ->
  (shouldAcceptOrder (Trade.side trade) (Trade.size trade) c = true <->
   Trade.size trade <= getMaxOrderSize (Trade.side trade) c) /\
  (shouldAcceptOrder (Trade.side trade) (Trade.size trade) c = true ->
   snd (updateInventory trade c) = [] /\
   currentInventory (fst (updateInventory trade c)) = moved trade c /\
   within_limits (fst (updateInventory trade c))).
Proof.
  intros [Hlo Hhi] Hsize.
  rewrite updateInventory_spec. cbv zeta. unfold within_limits. simpl.
  unfold shouldAcceptOrder, getMaxOrderSize, moved.
  destruct (Trade.side trade); rewrite bool_decide_eq_true.
  - split.
    + rewrite Rmax_right by lra. lra.
    + intros Hacc. repeat case_decide; try lra. repeat split; lra.
  - split.
    + rewrite Rmax_right by lra. lra.
    + intros Hacc. repeat case_decide; try lra. repeat split; lra.
Qed.

Lemma accepted_order_fills_without_capping_witness :
  let c := constructor DEFAULT_INVENTORY_CONFIG in
  let trade := Trade.mk "t1" buy 1.5 400 0 0 in
  snd (updateInventory trade c) = [] /\
  currentInventory (fst (updateInventory trade c)) = moved trade c /\
  within_limits (fst (updateInventory trade c)).
Proof.
  intros c trade.
  apply (accepted_order_fills_without_capping trade c).
  - unfold within_limits; simpl; lra.
  - simpl; lra.
  - unfold shouldAcceptOrder; simpl. apply bool_decide_eq_true. lra.
Defined.

Lemma slice_last_length {T} n (l : list T) :
  (n <= length l)%nat -> length (slice_last n l) = n.
Proof. intros H. unfold slice_last. rewrite length_drop. lia. Qed.

Lemma slice_last_last {T} n (l : list T) :
  (0 < n)%nat -> last (slice_last n l) = last l.
Proof.
  intros Hn. unfold slice_last.
  rewrite !last_lookup, lookup_drop, length_drop. f_equal.
  destruct (decide (length l = 0%nat)) as [E|E]; [rewrite E; reflexivity|].
  lia.
Qed.

(** X19.  The ledger's trade history is bounded and never loses the newest
    fill.  After [updateInventory] the history is a suffix of the old one
    with the trade appended, and the trade is its last entry; below 1000
    entries nothing is dropped, and at 1000 the history is cut back to the
    500 most recent; so a history of at most 1000 entries stays so. *)
Theorem updateInventory_tradeHistory trade c :
  let h := tradeHistory c in
  let h' := tradeHistory (fst (updateInventory trade c)) in
  h' `suffix_of` h ++ [trade] /\
  last h' = Some trade /\
  ((length h < 1000)%nat -> h' = h ++ [trade]) /\
  ((1000 <= length h)%nat -> length h' = 500%nat) /\
  ((length h <= 1000)%nat -> (length h' <= 1000)%nat).
Proof.
  intros h h'. unfold h'. rewrite updateInventory_spec. cbv zeta. simpl.
  fold h.
  assert (Hlen : length (h ++ [trade]) = S (length h))
    by (rewrite length_app; simpl; lia).
  assert (Hlast : last (h ++ [trade]) = Some trade) by apply last_snoc.
  case_decide as Hc; rewrite Hlen in Hc.
  - split; [apply suffix_drop|].
    split; [rewrite slice_last_last by lia; exact Hlast|].
    split; [intros; lia|].
    split; intros; rewrite slice_last_length; lia.
  - split; [reflexivity|]. split; [exact Hlast|].
    split; [reflexivity|]. split; intros; lia.
Qed.

Lemma updateInventory_tradeHistory_witness :
  let c := InventoryController.constructor DEFAULT_INVENTORY_CONFIG in
  let trade := Trade.mk "t1" buy 1.5 100 0 0 in
  tradeHistory (fst (updateInventory trade c)) = tradeHistory c ++ [trade].
Proof.
  intros c trade.
  apply (updateInventory_tradeHistory trade c).
  simpl. lia.
Defined.

(** X20.  The corrective trade reaches the target.  With the target within
    the limits, a fill of the side and size that [executeRebalance] derives
    from [getRebalanceAmount] (buy when it is positive, sell otherwise, its
    magnitude as size) puts the inventory on the target without capping;
    afterwards [getRebalanceAmount] is 0 and, for a threshold that is not
    negative, [needsRebalancing] is false. *)
Theorem rebalance_trade_reaches_target id price ts fee c :
  InventoryConfig.minInventory (config c)
    <= InventoryConfig.targetInventory (config c)
    <= InventoryConfig.maxInventory (config c) ->
  0 <= InventoryConfig.rebalanceThreshold (config c) ->
  let amount := getRebalanceAmount c in
  let side := if decide (amount > 0) then buy else sell in
  let trade := Trade.mk id side price (Rabs amount) ts fee in
  let c' := fst (updateInventory trade c) in
  snd (updateInventory trade c) = [] /\
  currentInventory c' = InventoryConfig.targetInventory (config c) /\
  getRebalanceAmount c' = 0 /\
  needsRebalancing c' = false.
Proof.
  intros [Hlo Hhi] Hthr amount side trade c'.
  assert (Hm : moved trade c = InventoryConfig.targetInventory (config c)).
  { unfold moved, trade, side, amount, getRebalanceAmount; simpl.
    case_decide; simpl.
    - rewrite Rabs_right by lra. lra.
    - rewrite Rabs_left1 by lra. lra. }
  unfold c'. rewrite updateInventory_spec. cbv zeta. simpl. rewrite Hm.
  unfold getRebalanceAmount, needsRebalancing; simpl.
  repeat case_decide; try lra.
  repeat split; try lra.
  apply bool_decide_eq_false.
  replace (InventoryConfig.targetInventory (config c)
           - InventoryConfig.targetInventory (config c)) with 0 by lra.
  rewrite Rabs_R0. unfold Rdiv. rewrite Rmult_0_l. lra.
Qed.

Lemma rebalance_trade_reaches_target_witness :
  let c := set_currentInventory 700 (constructor DEFAULT_INVENTORY_CONFIG) in
  let trade := Trade.mk "r1" sell 1.49 700 0 0 in
  currentInventory (fst (updateInventory trade c)) = 0 /\
  needsRebalancing (fst (updateInventory trade c)) = false.
Proof.
  intros c trade.
  assert (Hamount : getRebalanceAmount c = -700)
    by (unfold getRebalanceAmount, c; simpl; lra).
  pose proof (rebalance_trade_reaches_target "r1" 1.49 0 0 c) as H.
  cbv zeta in H. rewrite Hamount in H.
  destruct (decide (-700 > 0)) as [Hd|_]; [lra|].
  rewrite (Rabs_left (-700)) in H by lra.
  replace (- (-700)) with 700 in H by lra.
  destruct H as (_ & H1 & _ & H2); [unfold c; simpl; lra ..|].
  split; assumption.
Defined.

(** One more trade in the history adds its size to the volume of its side. *)
Lemma getTradeStats_snoc c h trade :
  tradeHistory c = h ++ [trade] ->
  forall c0, tradeHistory c0 = h ->
  count (getTradeStats c) = S (count (getTradeStats c0)) /\
  netVolume (getTradeStats c)
  = netVolume (getTradeStats c0)
    + match Trade.side trade with
      | buy => Trade.size trade
      | sell => - Trade.size trade
      end.
Proof.
  intros Hc c0 Hc0. unfold getTradeStats. rewrite Hc, Hc0.
  rewrite fold_left_app. simpl.
  destruct (fold_left _ h (0, 0)) as [bv sv]. simpl.
  rewrite length_app. simpl.
  destruct (Trade.side trade); simpl; split; try lia; lra.
Qed.

Lemma updateAll_net trades :
  forall c,
    snd (updateAll trades c) = [] ->
    (length (tradeHistory c) + length trades <= 1000)%nat ->
    let c' := fst (updateAll trades c) in
    tradeHistory c' = tradeHistory c ++ trades /\
    currentInventory c' - netVolume (getTradeStats c')
    = currentInventory c - netVolume (getTradeStats c).
Proof.
  induction trades as [|trade rest IH]; intros c Hw Hlen; simpl in *.
  - rewrite app_nil_r. split; reflexivity.
  - pose proof (updateInventory_spec trade c) as Hspec. cbv zeta in Hspec.
    destruct (updateInventory trade c) as [c1 w] eqn:Hu.
    destruct (updateAll rest c1) as [c2 ws] eqn:Hr. simpl in *.
    apply app_eq_nil in Hw as [Hw1 Hws].
    destruct (decide (moved trade c
                      > InventoryConfig.maxInventory (config c)));
      [injection Hspec; intros; subst; discriminate|].
    destruct (decide (moved trade c
                      < InventoryConfig.minInventory (config c)));
      [injection Hspec; intros; subst; discriminate|].
    destruct (decide (1000 < length (tradeHistory c ++ [trade]))%nat)
      as [H3|_]; [rewrite length_app in H3; simpl in H3; lia|].
    injection Hspec as Hc1 _.
    assert (Hh : tradeHistory c1 = tradeHistory c ++ [trade])
      by (rewrite Hc1; reflexivity).
    assert (Hcur : currentInventory c1 = moved trade c)
      by (rewrite Hc1; reflexivity).
    specialize (IH c1). rewrite Hr in IH. simpl in IH.
    destruct IH as [IH1 IH2]; [exact Hws| |].
    { rewrite Hh, length_app. simpl. lia. }
    split.
    + rewrite IH1, Hh, <- app_assoc. reflexivity.
    + rewrite IH2, Hcur.
      destruct (getTradeStats_snoc c1 (tradeHistory c) trade Hh c eq_refl)
        as [_ ->].
      unfold moved. destruct (Trade.side trade); lra.
Qed.

(** X21.  As long as no limit was hit and the history was not cut, the
    ledger's inventory is the net volume of its history: after any run of
    at most 1000 fills on a fresh ledger that gave no warning, the history
    holds the fills in order, [getTradeStats] counts them all, and its
    [netVolume] (buys less sells) is the current inventory. *)
Theorem inventory_is_net_volume cfg trades :
  (length trades <= 1000)%nat ->
  snd (updateAll trades (constructor cfg)) = [] ->
  let c' := fst (updateAll trades (constructor cfg)) in
  tradeHistory c' = trades /\
  count (getTradeStats c') = length trades /\
  netVolume (getTradeStats c') = currentInventory c'.
Proof.
  intros Hlen Hw c'.
  destruct (updateAll_net trades (constructor cfg) Hw) as [Hh Hnet];
    [simpl; lia|].
  fold c' in Hh, Hnet. simpl in Hh.
  split; [exact Hh|]. split.
  - unfold getTradeStats. rewrite Hh.
    destruct (fold_left _ trades (0, 0)). reflexivity.
  - unfold getTradeStats at 2 in Hnet. simpl in Hnet. lra.
Qed.

Lemma inventory_is_net_volume_witness :
  let trades := [Trade.mk "t1" buy 1.5 300 0 0; Trade.mk "t2" sell 1.6 120 1 0] in
  let c' := fst (updateAll trades (constructor DEFAULT_INVENTORY_CONFIG)) in
  tradeHistory c' = trades /\
  count (getTradeStats c') = 2%nat /\
  netVolume (getTradeStats c') = currentInventory c'.
Proof.
  intros trades.
  apply (inventory_is_net_volume DEFAULT_INVENTORY_CONFIG trades).
  - simpl. lia.
  - unfold trades. simpl.
    rewrite !updateInventory_spec. cbv zeta. unfold moved. simpl.
    repeat (case_decide; simpl; try lra).
    all: reflexivity.
Defined.

End InventoryControllerMore.

(** ** More on the spread model *)

Section SpreadCalculatorMore.
Import SpreadCalculator.

Lemma Int_part_le x y : x <= y -> (Int_part x <= Int_part y)%Z.
Proof.
  intros Hxy.
  destruct (base_Int_part x) as [Hx _]. destruct (base_Int_part y) as [_ Hy].
  assert (H : IZR (Int_part x) < IZR (Int_part y + 1))
    by (rewrite plus_IZR; lra).
  apply lt_IZR in H. lia.
Qed.

(** X22.  Rounding to a positive tick gives a whole number of ticks within
    half a tick of the value, and never reverses the order of two values. *)
Theorem roundToTickSize_spec value tickSize :
  0 < tickSize ->
  (exists k : Z, roundToTickSize value tickSize = IZR k * tickSize) /\
  - (tickSize / 2) < roundToTickSize value tickSize - value <= tickSize / 2 /\
  (forall value', value <= value' ->
     roundToTickSize value tickSize <= roundToTickSize value' tickSize).
Proof.
  intros Ht. unfold roundToTickSize.
  split; [eexists; reflexivity|]. split.
  - destruct (base_Int_part (value / tickSize + 0.5)) as [H1 H2].
    assert (Hv : value = value / tickSize * tickSize) by (field; lra).
    remember (value / tickSize) as q eqn:Eq.
    remember (IZR (Int_part (q + 0.5))) as n eqn:En.
    rewrite Hv. clear Hv Eq En.
    split; nra.
  - intros value' Hle.
    apply Rmult_le_compat_r; [lra|].
    apply IZR_le, Int_part_le.
    apply Rplus_le_compat_r.
    apply Rmult_le_compat_r; [|exact Hle].
    left. apply Rinv_0_lt_compat. exact Ht.
Qed.

Lemma roundToTickSize_spec_witness :
  - (0.0001 / 2) < roundToTickSize 1.48734 0.0001 - 1.48734 <= 0.0001 / 2.
Proof.
  apply (roundToTickSize_spec 1.48734 0.0001). lra.
Defined.

(** The factor [adjustOrderSize] multiplies the base size by, for a ratio
    within [0,1]: the clamp to [0.2, 1.5] is never reached. *)
Lemma adjustOrderSize_factor baseSize st :
  0 <= InventoryState.inventoryRatio st <= 1 ->
  let r := InventoryState.inventoryRatio st in
  adjustOrderSize baseSize st bid
  = baseSize * (if decide (r > 0.5) then 1 - (r - 0.5) * 0.8
                else 1 + (0.5 - r) * 0.4) /\
  adjustOrderSize baseSize st ask
  = baseSize * (if decide (r < 0.5) then 1 - (0.5 - r) * 0.8
                else 1 + (r - 0.5) * 0.4).
Proof.
  intros Hr r. subst r. unfold adjustOrderSize.
  split; f_equal; case_decide;
    rewrite Rmin_right, Rmax_right by lra; reflexivity.
Qed.

(** X23.  Sizes lean against the inventory.  For a positive base size and a
    ratio within [0,1], both quoted sizes lie between 0.6 and 1.2 times the
    base size; a ratio above 0.5 quotes a bid size below the base size and
    an ask size above it, a ratio below 0.5 the reverse, and a ratio of 0.5
    quotes the base size on both sides. *)
Theorem adjustOrderSize_leans baseSize st :
  0 < baseSize -> 0 <= InventoryState.inventoryRatio st <= 1 ->
  let r := InventoryState.inventoryRatio st in
  let b := adjustOrderSize baseSize st bid in
  let a := adjustOrderSize baseSize st ask in
  0.6 * baseSize <= b <= 1.2 * baseSize /\
  0.6 * baseSize <= a <= 1.2 * baseSize /\
  (r > 0.5 -> b < baseSize < a) /\
  (r < 0.5 -> a < baseSize < b) /\
  (r = 0.5 -> b = baseSize /\ a = baseSize).
Proof.
  intros Hb Hr r b a. unfold b, a.
  destruct (adjustOrderSize_factor baseSize st Hr) as [-> ->].
  subst r. revert Hr. generalize (InventoryState.inventoryRatio st).
  intros r Hr.
  repeat case_decide; repeat split; intros; nra.
Qed.

Lemma adjustOrderSize_leans_witness :
  let st := InventoryState.mk 500 0 0.75 0 1000 (-1000) in
  adjustOrderSize 100 st bid < 100 < adjustOrderSize 100 st ask.
Proof.
  intros st.
  apply (adjustOrderSize_leans 100 st); simpl; lra.
Defined.

(** The ask side of a ratio is the bid side of the mirrored ratio:
    [adjustOrderSize] treats long and short inventory symmetrically. *)
Lemma adjustOrderSize_mirror baseSize st st' :
  InventoryState.inventoryRatio st' = 1 - InventoryState.inventoryRatio st ->
  adjustOrderSize baseSize st bid = adjustOrderSize baseSize st' ask /\
  adjustOrderSize baseSize st ask = adjustOrderSize baseSize st' bid.
Proof.
  intros Hm. unfold adjustOrderSize. rewrite Hm.
  split; do 3 f_equal; repeat case_decide; lra.
Qed.

(** X24.  A quote is never crossed.  For a positive mid price and a
    configuration with [0 < minSpread <= maxSpread], [generateQuote] reports
    a [spread] of at least [midPrice * minSpread], the unrounded bid is
    below the mid price and the unrounded ask above it, and after rounding
    to the tick the bid price is still not above the ask price. *)
Theorem generateQuote_not_crossed c midPrice md st orderSize :
  0 < midPrice ->
  0 < SpreadConfig.minSpread (config c) ->
  SpreadConfig.minSpread (config c) <= SpreadConfig.maxSpread (config c) ->
  let q := generateQuote c midPrice md st orderSize in
  let s := calculateOptimalSpread c md st in
  Quote.midPrice q = midPrice /\
  Quote.spread q = midPrice * (bidSpread s + askSpread s) /\
  midPrice * SpreadConfig.minSpread (config c) <= Quote.spread q /\
  midPrice * (1 - bidSpread s) < midPrice < midPrice * (1 + askSpread s) /\
  Quote.bidPrice q <= Quote.askPrice q.
Proof.
  intros Hmid Hmin Hcfg q s. subst q. unfold generateQuote. fold s.
  cbn [Quote.midPrice Quote.spread Quote.bidPrice Quote.askPrice].
  assert (Hb : SpreadConfig.minSpread (config c) / 2 <= bidSpread s)
    by (unfold s; rewrite calculateOptimalSpread_eq; apply Rmax_r).
  assert (Ha : SpreadConfig.minSpread (config c) / 2 <= askSpread s)
    by (unfold s; rewrite calculateOptimalSpread_eq; apply Rmax_r).
  clearbody s.
  assert (H1 : 0 <= midPrice * (bidSpread s
                                - SpreadConfig.minSpread (config c) / 2))
    by (apply Rmult_le_pos; lra).
  assert (H2 : 0 <= midPrice * (askSpread s
                                - SpreadConfig.minSpread (config c) / 2))
    by (apply Rmult_le_pos; lra).
  assert (H3 : 0 < midPrice * (SpreadConfig.minSpread (config c) / 2))
    by (apply Rmult_lt_0_compat; lra).
  split; [reflexivity|]. split; [ring|]. split; [lra|]. split; [lra|].
  apply roundToTickSize_spec; lra.
Qed.

Lemma generateQuote_not_crossed_witness :
  let c := constructor DEFAULT_SPREAD_CONFIG in
  let md := MarketData.mk "TOKEN/USDC" 1.5 1.49 1.51 1000000 1.6 1.4 0.05 in
  let st := InventoryState.mk 500 0 0.75 0 1000 (-1000) in
  let q := generateQuote c 1.5 md st 100 in
  1.5 * 0.0005 <= Quote.spread q /\ Quote.bidPrice q <= Quote.askPrice q.
Proof.
  intros c md st q.
  destruct (generateQuote_not_crossed c 1.5 md st 100)
    as (_ & _ & H1 & _ & H2); [simpl; lra ..|].
  split; assumption.
Defined.

(** X25.  The size-weighted mid price lies between the bid and the ask for
    sizes that are not negative and not both zero, is the plain mid price
    when the sizes are equal, and falls back to the plain mid price when
    the sizes add up to zero. *)
Theorem calculateWeightedMidPrice_between bidPrice bidSize askPrice askSize :
  bidPrice <= askPrice -> 0 <= bidSize -> 0 <= askSize ->
  let w := calculateWeightedMidPrice bidPrice bidSize askPrice askSize in
  bidPrice <= w <= askPrice /\
  (bidSize = askSize -> w = calculateMidPrice bidPrice askPrice).
Proof.
  intros Hp Hb Ha w. subst w.
  unfold calculateWeightedMidPrice, calculateMidPrice.
  case_decide as Hz.
  - split; [lra|reflexivity].
  - assert (Ht : 0 < bidSize + askSize) by lra.
    split.
    + split.
      * apply Rmult_le_reg_r with (bidSize + askSize); [lra|].
        unfold Rdiv. rewrite Rmult_assoc, Rinv_l by lra. nra.
      * apply Rmult_le_reg_r with (bidSize + askSize); [lra|].
        unfold Rdiv. rewrite Rmult_assoc, Rinv_l by lra. nra.
    + intros ->. field. lra.
Qed.

Lemma calculateWeightedMidPrice_between_witness :
  1.49 <= calculateWeightedMidPrice 1.49 300 1.51 100 <= 1.51.
Proof.
  apply (calculateWeightedMidPrice_between 1.49 300 1.51 100); lra.
Defined.

Lemma logReturns_length prices :
  length (logReturns prices) = Nat.pred (length prices).
Proof.
  induction prices as [|p0 [|p1 rest] IH]; simpl in *; try reflexivity.
  rewrite IH. reflexivity.
Qed.






End SpreadCalculatorMore.

(** ** More on the coordinator *)

Section MarketMakerMore.
Import MarketMaker.

Lemma createOrder_id side price size id now m :
  Order.id (createOrder side price size id now m) = id.
Proof. unfold createOrder. case_match; reflexivity. Qed.

(** X27.  [executeRebalance] never trades.  The order it creates is not put
    into the open-order table before [processFill] looks it up, so unless
    the fresh identifier happens to be the key of an order already resting,
    the call returns [null] and changes nothing, however far the inventory
    is from its target. *)
Theorem executeRebalance_never_fills marketData orderId createdAt
    updatedAt tradeId timestamp (m : t) :
  activeOrders m !! orderId = None ->
  executeRebalance marketData orderId createdAt updatedAt tradeId timestamp m
  = (None, [], m).
Proof.
  intros Hnone. unfold executeRebalance.
  destruct (negb _); [reflexivity|].
  rewrite createOrder_id. unfold processFill. rewrite Hnone. reflexivity.
Qed.

Lemma executeRebalance_never_fills_witness :
  let m := set_inventoryController
             (InventoryController.set_currentInventory 700
                (InventoryController.constructor
                   InventoryController.DEFAULT_INVENTORY_CONFIG))
             (constructor DEFAULT_CONFIG 0) in
  let md := MarketData.mk "TOKEN/USDC" 1.5 1.49 1.51 1000000 1.6 1.4 0.05 in
  InventoryController.needsRebalancing (inventoryController m) = true /\
  executeRebalance md "r-1" 1 1 "t-1" 1 m = (None, [], m).
Proof.
  intros m md. split.
  - unfold InventoryController.needsRebalancing; simpl.
    apply bool_decide_eq_true.
    replace (700 - 0) with 700 by lra. rewrite Rabs_right by lra. lra.
  - apply (executeRebalance_never_fills md "r-1" 1 1 "t-1" 1 m).
    apply lookup_empty.
Defined.

Lemma cancelOrder_state orderId (m : t) :
  snd (cancelOrder orderId m)
  = set_activeOrders (delete orderId (activeOrders m)) m.
Proof.
  unfold cancelOrder. destruct (activeOrders m !! orderId) eqn:E; simpl.
  - reflexivity.
  - rewrite delete_id by exact E. destruct m; reflexivity.
Qed.

Lemma cancel_fold (ks : list string) (m : t) :
  fold_left (fun m orderId => snd (cancelOrder orderId m)) ks m
  = set_activeOrders
      (fold_left (fun (M : gmap string Order.t) k => delete k M) ks
         (activeOrders m)) m.
Proof.
  revert m. induction ks as [|k ks IH]; intros m; simpl.
  - destruct m; reflexivity.
  - rewrite IH, cancelOrder_state. reflexivity.
Qed.

Lemma lookup_fold_delete (ks : list string) (M : gmap string Order.t) k :
  fold_left (fun (M : gmap string Order.t) k => delete k M) ks M !! k
  = if decide (k ∈ ks) then None else M !! k.
Proof.
  revert M. induction ks as [|k0 ks IH]; intros M; cbn [fold_left].
  - rewrite decide_False by apply not_elem_of_nil. reflexivity.
  - rewrite IH. destruct (decide (k ∈ ks)) as [Hin|Hnin].
    + rewrite decide_True by (apply elem_of_cons; right; exact Hin).
      reflexivity.
    + destruct (decide (k = k0)) as [->|Hne].
      * rewrite decide_True by (apply elem_of_cons; left; reflexivity).
        apply lookup_delete_eq.
      * rewrite decide_False
          by (rewrite elem_of_cons; intros [Hc|Hc]; contradiction).
        apply lookup_delete_ne. congruence.
Qed.

(** X28.  [stop] (and so [cancelAllOrders]) empties the open-order table and
    clears the running flag, and touches nothing else: inventory, trade
    history, volume and realized P&L are as before; any fill reported
    afterwards finds no order. *)
Theorem stop_clears_orders (m : t) :
  stop m
  = mk (config m) (spreadCalculator m) (inventoryController m)
       (liquidityPool m) ∅ (tradeHistory m) false (startTime m)
       (totalVolume m) (realizedPnL m) /\
  forall orderId filledSize fillPrice updatedAt tradeId timestamp,
    processFill orderId filledSize fillPrice updatedAt tradeId timestamp
      (stop m)
    = (None, [], stop m).
Proof.
  assert (Hstop : stop m
            = mk (config m) (spreadCalculator m) (inventoryController m)
                 (liquidityPool m) ∅ (tradeHistory m) false (startTime m)
                 (totalVolume m) (realizedPnL m)).
  { unfold stop, cancelAllOrders. rewrite cancel_fold. simpl.
    unfold set_activeOrders; simpl. f_equal.
    apply map_eq. intros k. rewrite lookup_fold_delete, lookup_empty.
    case_decide as Hin; [reflexivity|].
    destruct (activeOrders m !! k) as [o|] eqn:E; [|reflexivity].
    exfalso. apply Hin.
    apply list_elem_of_fmap. exists (k, o). split; [reflexivity|].
    apply elem_of_map_to_list. exact E. }
  split; [exact Hstop|].
  intros. rewrite Hstop. unfold processFill. simpl.
  rewrite lookup_empty. reflexivity.
Qed.

(** X29.  A fill of a resting order, in full.  [processFill] returns the
    trade made of the order's side and the reported size and price, with a
    fee of a thousandth of the notional, and passes on the ledger's
    warnings.  The order leaves the table when its cumulative filled size
    reaches its size and otherwise stays, marked partial, with the
    cumulative size; the ledger has been given the trade; the trade is
    appended to the coordinator's history and its notional added to the
    volume.  A fill that leaves the position on its own side of zero adds
    nothing to the realized P&L, and a filled order cannot be filled
    again. *)
Theorem processFill_resting_order orderId filledSize fillPrice
    updatedAt tradeId timestamp (m : t) order :
  activeOrders m !! orderId = Some order ->
  let total := Order.filledSize order + filledSize in
  let trade :=
    Trade.mk tradeId (Order.side order) fillPrice filledSize timestamp
      (filledSize * fillPrice * 0.001) in
  let res :=
    InventoryController.updateInventory trade (inventoryController m) in
  exists m',
    processFill orderId filledSize fillPrice updatedAt tradeId timestamp m
    = (Some trade, snd res, m') /\
    activeOrders m'
    = (if decide (total >= Order.size order)
       then delete orderId (activeOrders m)
       else <[orderId :=
                Order.mk (Order.id order) (Order.side order)
                  (Order.price order) (Order.size order) total partial
                  (Order.createdAt order) updatedAt]> (activeOrders m)) /\
    inventoryController m' = fst res /\
    tradeHistory m' = tradeHistory m ++ [trade] /\
    totalVolume m' = totalVolume m + filledSize * fillPrice /\
    ((Order.side order = buy
      /\ InventoryController.currentInventory (fst res) > 0)
     \/ (Order.side order = sell
         /\ InventoryController.currentInventory (fst res) < 0) ->
     realizedPnL m' = realizedPnL m) /\
    (total >= Order.size order ->
     forall filledSize' fillPrice' updatedAt' tradeId' timestamp',
       processFill orderId filledSize' fillPrice' updatedAt' tradeId'
         timestamp' m'
       = (None, [], m')).
Proof.
  intros Hsome total trade res. unfold processFill. rewrite Hsome.
  cbn [Order.filledSize Order.size Order.side Order.set_filledSize
       Order.set_updatedAt Order.set_status].
  fold total. fold trade.
  destruct (decide (total >= Order.size order)) as [Hfull|Hpart].
  - cbn [inventoryController set_activeOrders]. fold res.
    destruct res as [ic warnings] eqn:Hres.
    cbn [fst snd].
    eexists. split; [reflexivity|].
    unfold updateRealizedPnL.
    cbn [InventoryController.calculatePosition Position.baseBalance
         inventoryController set_totalVolume set_tradeHistory
         set_inventoryController].
    split; [case_decide; reflexivity|].
    split; [case_decide; reflexivity|].
    split; [case_decide; reflexivity|].
    split; [case_decide; reflexivity|].
    split.
    + intros Hside. case_decide as Hc; [|reflexivity].
      cbn [Trade.side trade] in Hc. unfold trade in Hc. simpl in Hc.
      exfalso. destruct Hside as [[Hs Hi]|[Hs Hi]];
        destruct Hc as [[Hs' Hi']|[Hs' Hi']]; try congruence; lra.
    + intros _ fs' fp' u' tid' ts'.
      case_decide;
        cbn [activeOrders set_realizedPnL set_totalVolume set_tradeHistory
             set_inventoryController set_activeOrders];
        rewrite lookup_delete_eq; reflexivity.
  - cbn [inventoryController set_activeOrders]. fold res.
    destruct res as [ic warnings] eqn:Hres.
    cbn [fst snd].
    eexists. split; [reflexivity|].
    unfold updateRealizedPnL.
    cbn [InventoryController.calculatePosition Position.baseBalance
         inventoryController set_totalVolume set_tradeHistory
         set_inventoryController].
    split; [case_decide; reflexivity|].
    split; [case_decide; reflexivity|].
    split; [case_decide; reflexivity|].
    split; [case_decide; reflexivity|].
    split.
    + intros Hside. case_decide as Hc; [|reflexivity].
      unfold trade in Hc. simpl in Hc.
      exfalso. destruct Hside as [[Hs Hi]|[Hs Hi]];
        destruct Hc as [[Hs' Hi']|[Hs' Hi']]; try congruence; lra.
    + intros Hfull. contradiction.
Qed.

Lemma processFill_resting_order_witness :
  let m := snd (placeOrders 1.49 100 1.51 100 "bid-1" 0 "ask-1" 0
                  (constructor DEFAULT_CONFIG 0)) in
  exists order trade warnings m',
    activeOrders m !! "bid-1" = Some order /\
    processFill "bid-1" 40 1.49 1 "t1" 1 m = (Some trade, warnings, m') /\
    tradeHistory m' = tradeHistory m ++ [trade] /\
    totalVolume m' = totalVolume m + 40 * 1.49.
Proof.
  intros m.
  assert (Hlook : activeOrders m !! "bid-1"
                  = Some (createOrder buy 1.49 100 "bid-1" 0
                            (constructor DEFAULT_CONFIG 0))).
  { unfold m. rewrite placeOrders_activeOrders.
    rewrite lookup_insert_ne by discriminate.
    apply lookup_insert_eq. }
  destruct (processFill_resting_order "bid-1" 40 1.49 1 "t1" 1 m _ Hlook)
    as (m' & H1 & _ & _ & H4 & H5 & _).
  do 4 eexists. split; [exact Hlook|]. split; [exact H1|].
  split; [exact H4|exact H5].
Defined.

(** X30.  Orders are sized to what the ledger admits.  With the inventory
    within the limits and a [minOrderSize] that is not negative,
    [createOrder] makes a pending, unfilled order of the requested side and
    identifier whose size, before it is rounded to the size tick, is not
    negative, is at most the requested size clamped to the configured order
    sizes, and passes [shouldAcceptOrder]. *)
Theorem createOrder_size_acceptable side price size id now (m : t) :
  within_limits (inventoryController m) ->
  0 <= MarketMakerConfig.minOrderSize (config m) ->
  let o := createOrder side price size id now m in
  Order.id o = id /\ Order.side o = side /\
  Order.status o = pending /\ Order.filledSize o = 0 /\
  exists s,
    Order.size o
    = roundToTick s (MarketMakerConfig.sizeTickSize (config m)) /\
    0 <= s <= Rmax (MarketMakerConfig.minOrderSize (config m))
                   (Rmin (MarketMakerConfig.maxOrderSize (config m)) size) /\
    InventoryController.shouldAcceptOrder side s (inventoryController m)
    = true.
Proof.
  intros [Hlo Hhi] Hmin o. subst o. unfold createOrder.
  pose proof (Rmax_l (MarketMakerConfig.minOrderSize (config m))
                (Rmin (MarketMakerConfig.maxOrderSize (config m)) size))
    as Hadj.
  revert Hadj.
  generalize (Rmax (MarketMakerConfig.minOrderSize (config m))
                (Rmin (MarketMakerConfig.maxOrderSize (config m)) size)).
  intros adj Hadj.
  destruct (InventoryController.shouldAcceptOrder side adj
              (inventoryController m)) eqn:Hacc; simpl.
  - repeat split; try reflexivity.
    exists adj. repeat split; try lra. exact Hacc.
  - repeat split; try reflexivity.
    eexists. split; [reflexivity|].
    unfold InventoryController.getMaxOrderSize,
      InventoryController.shouldAcceptOrder.
    destruct side; rewrite (Rmax_right 0) by lra.
    + split.
      * split; [apply Rmin_glb; lra|apply Rmin_l].
      * apply bool_decide_eq_true.
        pose proof (Rmin_r adj
                      (InventoryConfig.maxInventory
                         (InventoryController.config (inventoryController m))
                       - InventoryController.currentInventory
                           (inventoryController m))).
        lra.
    + split.
      * split; [apply Rmin_glb; lra|apply Rmin_l].
      * apply bool_decide_eq_true.
        pose proof (Rmin_r adj
                      (InventoryController.currentInventory
                         (inventoryController m)
                       - InventoryConfig.minInventory
                           (InventoryController.config
                              (inventoryController m)))).
        lra.
Qed.

Lemma createOrder_size_acceptable_witness :
  let m := set_inventoryController
             (InventoryController.set_currentInventory 950
                (InventoryController.constructor
                   InventoryController.DEFAULT_INVENTORY_CONFIG))
             (constructor DEFAULT_CONFIG 0) in
  let o := createOrder buy 1.49 100 "bid-1" 0 m in
  Order.id o = "bid-1" /\ Order.side o = buy /\
  Order.status o = pending /\ Order.filledSize o = 0 /\
  exists s,
    Order.size o
    = roundToTick s (MarketMakerConfig.sizeTickSize (config m)) /\
    0 <= s <= Rmax (MarketMakerConfig.minOrderSize (config m))
                   (Rmin (MarketMakerConfig.maxOrderSize (config m)) 100) /\
    InventoryController.shouldAcceptOrder buy s (inventoryController m)
    = true.
Proof.
  intros m.
  apply (createOrder_size_acceptable buy 1.49 100 "bid-1" 0 m).
  - unfold within_limits; simpl; lra.
  - simpl; lra.
Defined.

End MarketMakerMore.
